(** * Video2Char: the ASCII video player

    A shallow embedding of [ascii_video_player.py]: the session constructor
    ([ASCIIVideoPlayer.__init__]), the frame-to-glyph conversion
    ([frame_to_ascii]), the glyph drawing ([draw_ascii_frame]) and the
    playback loop ([play], [cleanup]).

    Python [float]s are IEEE 754 binary64 numbers and are embedded as Rocq's
    primitive floats; Python [int]s are embedded as [Z]; [str] as [string].
    Exceptions are values of an error monad.  OpenCV and pygame are
    collaborators outside of the repository: they appear as an interface
    ([ImageProvider]) whose laws are stated explicitly, and as recorded
    effects of the playback loop. *)

From Stdlib Require Import PrimFloat.
From Stdlib Require FloatOps SpecFloat Uint63.
From Stdlib Require Import ZArith Lia List String Ascii Bool.
Import ListNotations.
Open Scope Z_scope.

(** ** Python primitives *)

Module Py.

(** The exceptions the modelled code can raise. *)
Inductive exn : Type :=
| ValueError
| ZeroDivisionError
| OverflowError
| IndexError
| CvError
| PygameError.

Inductive result (A : Type) : Type :=
| Ok (a : A)
| Raise (e : exn).
Arguments Ok {A} a.
Arguments Raise {A} e.

Definition bind {A B : Type} (m : result A) (k : A -> result B) : result B :=
  match m with
  | Ok a => k a
  | Raise e => Raise e
  end.

(** [float(z)] for an [int] below [2^63] in magnitude. *)
Definition float_of_Z (z : Z) : float :=
  if z <? 0 then PrimFloat.opp (PrimFloat.of_uint63 (Uint63.of_Z (- z)))
  else PrimFloat.of_uint63 (Uint63.of_Z z).

(** [int(x)] on a float: truncation toward zero; infinities raise
    [OverflowError] and NaN raises [ValueError]. *)
Definition int_of_float (x : float) : result Z :=
  match FloatOps.Prim2SF x with
  | SpecFloat.S754_zero _ => Ok 0
  | SpecFloat.S754_finite s m e =>
      let mag := match e with
                 | Z0 => Z.pos m
                 | Zpos p => Z.pos m * 2 ^ Z.pos p
                 | Zneg p => Z.pos m / 2 ^ Z.pos p
                 end in
      Ok (if s then - mag else mag)
  | SpecFloat.S754_infinity _ => Raise OverflowError
  | SpecFloat.S754_nan => Raise ValueError
  end.

(** [x < y] on floats, read off the IEEE 754 values of the operands. *)
Definition float_ltb (x y : float) : bool :=
  SpecFloat.SFltb (FloatOps.Prim2SF x) (FloatOps.Prim2SF y).

(** [y == 0.0], for either sign of zero. *)
Definition float_is_zero (y : float) : bool :=
  match FloatOps.Prim2SF y with
  | SpecFloat.S754_zero _ => true
  | _ => false
  end.

(** [x / y] on floats: a zero divisor raises. *)
Definition float_truediv (x y : float) : result float :=
  if float_is_zero y then Raise ZeroDivisionError
  else Ok (PrimFloat.div x y).

(** [a / b] on ints (true division).  CPython returns a signed zero for
    [a = 0] and the correctly rounded quotient otherwise, which for
    operands below [2^53] is the quotient of the two conversions. *)
Definition int_truediv (a b : Z) : result float :=
  if b =? 0 then Raise ZeroDivisionError
  else if a =? 0 then Ok (if b <? 0 then PrimFloat.opp 0%float else 0%float)
  else Ok (PrimFloat.div (float_of_Z a) (float_of_Z b)).

(** [len(s)] *)
Definition len (s : string) : Z := Z.of_nat (String.length s).

(** [s[i]], with Python's wrap-around of negative indices. *)
Definition getitem (s : string) (i : Z) : result ascii :=
  let j := if i <? 0 then i + len s else i in
  if (j <? 0) || (len s <=? j) then Raise IndexError
  else match String.get (Z.to_nat j) s with
       | Some c => Ok c
       | None => Raise IndexError
       end.

(** Position of the first occurrence of [c] in [s]. *)
Fixpoint find (c : ascii) (s : string) : option nat :=
  match s with
  | EmptyString => None
  | String d s' =>
      if Ascii.eqb d c then Some O
      else match find c s' with
           | Some n => Some (S n)
           | None => None
           end
  end.

(** [s.index(c)]: first occurrence, [ValueError] when absent. *)
Definition index (s : string) (c : ascii) : result Z :=
  match find c s with
  | Some n => Ok (Z.of_nat n)
  | None => Raise ValueError
  end.

(** [s.split(sep)] for a one-character separator. *)
Fixpoint split (sep : ascii) (s : string) : list string :=
  match s with
  | EmptyString => [EmptyString]
  | String c s' =>
      if Ascii.eqb c sep then EmptyString :: split sep s'
      else match split sep s' with
           | l :: ls => String c l :: ls
           | [] => [String c EmptyString]
           end
  end.

Definition newline : ascii := ascii_of_nat 10.

End Py.

Import Py.

Notation "x <- m ;; k" := (Py.bind m (fun x => k))
  (at level 61, m at next level, right associativity).
Notation "' p <- m ;; k" := (Py.bind m (fun x => let p := x in k))
  (at level 61, p pattern, m at next level, right associativity).

(** ** The character sets *)

(** [ASCII_CHARS]: from dark to bright. *)
Definition ASCII_CHARS : string := " .':!*oe&#%@".

(** [ASCII_CHARS_EXTENDED]: the alternative set with more gradations. *)
Definition ASCII_CHARS_EXTENDED : string :=
  (" .'`^" ++ String (ascii_of_nat 34)
     ",:;Il!i><~+_-?][}{1)(|\/tfjrxnuvczXYUJCLQ0OZmwqpdbkhao*#MW&8%B@$")%string.

(** [self.chars], chosen by [use_extended_chars] in [__init__]. *)
Definition select_chars (use_extended_chars : bool) : string :=
  if use_extended_chars then ASCII_CHARS_EXTENDED else ASCII_CHARS.

(** ** Luminance to character index ([frame_to_ascii], the loop body) *)

(** [normalized = pixel_value / 255.0;
     char_index = int(normalized ** 0.5 * (len(self.chars) - 1));
     char_index = min(max(char_index, 0), len(self.chars) - 1)].
    The power [** 0.5] is the square root. *)
Definition char_index (chars : string) (pixel_value : Z) : result Z :=
  let normalized := PrimFloat.div (float_of_Z pixel_value) 255%float in
  k <- int_of_float
         (PrimFloat.mul (PrimFloat.sqrt normalized) (float_of_Z (len chars - 1))) ;;
  Ok (Z.min (Z.max k 0) (len chars - 1)).

(** The glyph appended to [ascii_frame] for one pixel. *)
Definition pixel_glyph (chars : string) (pixel_value : Z) : result ascii :=
  i <- char_index chars pixel_value ;;
  getitem chars i.

(** ** Grayscale of a glyph ([draw_ascii_frame], the no-color branch) *)

(** [gray_val = int((self.chars.index(char) / len(self.chars)) * 255)] *)
Definition gray_val (chars : string) (char : ascii) : result Z :=
  i <- index chars char ;;
  q <- int_truediv i (len chars) ;;
  int_of_float (PrimFloat.mul q 255%float).

(** ** The session ([ASCIIVideoPlayer.__init__]) *)

(** What [cv2.VideoCapture] reports about an opened file, the decoded frames
    and the read cursor.  A pixel is a [(b, g, r)] triple. *)
Definition pixel : Type := (Z * Z * Z)%type.
Definition image : Type := list (list pixel).
Definition gray_image : Type := list (list Z).

Record capture : Type := {
  opened : bool;
  cap_fps : float;
  cap_frame_count : Z;
  cap_width : Z;
  cap_height : Z;
  frames : list image;
  pos : nat
}.

(** What the font reports: [font.size('W')[0]] and [font.get_height()]. *)
Record font_metrics : Type := {
  glyph_width : Z;
  glyph_height : Z
}.

Record session : Type := {
  ascii_width : Z;
  ascii_height : Z;
  use_color : bool;
  chars : string;
  show_preview : bool;
  fps : float;
  frame_count : Z;
  original_width : Z;
  original_height : Z;
  font : font_metrics;
  ascii_screen_width : Z;
  ascii_screen_height : Z;
  preview_width : Z;
  preview_height : Z;
  screen_width : Z;
  screen_height : Z
}.

(** [pygame.display.set_mode(size)]: pygame refuses a negative size, and
    the window system a side of more than 16384 pixels. *)
Definition display_set_mode (size : Z * Z) : result unit :=
  let '(w, h) := size in
  if (w <? 0) || (h <? 0) || (16384 <? w) || (16384 <? h)
  then Raise PygameError
  else Ok tt.

(** [self.ascii_height] when [height is None]:
    [video_aspect = W / H; int(self.ascii_width / video_aspect * 0.5)]. *)
Definition derived_height (width original_width original_height : Z) : result Z :=
  video_aspect <- int_truediv original_width original_height ;;
  q <- float_truediv (float_of_Z width) video_aspect ;;
  int_of_float (PrimFloat.mul q 0.5%float).

(** [self.preview_height]:
    [int(self.preview_width * self.original_height / self.original_width)]. *)
Definition derived_preview_height (preview_width original_width original_height : Z)
  : result Z :=
  q <- int_truediv (preview_width * original_height) original_width ;;
  int_of_float q.

(** [__init__]. *)
Definition init (cap : capture) (fnt : font_metrics)
    (width : Z) (height : option Z)
    (use_color use_extended_chars show_preview : bool) : result session :=
  if negb (opened cap) then Raise ValueError
  else
    let original_width := cap_width cap in
    let original_height := cap_height cap in
    ascii_height <- match height with
                    | None => derived_height width original_width original_height
                    | Some h => Ok h
                    end ;;
    let char_width := glyph_width fnt in
    let char_height := glyph_height fnt in
    let ascii_screen_width := width * char_width in
    let ascii_screen_height := ascii_height * char_height in
    let preview_width := 240 in
    preview_height <- derived_preview_height preview_width original_width original_height ;;
    let screen_width := ascii_screen_width + 20 in
    let screen_height := ascii_screen_height + 20 in
    _ <- display_set_mode (screen_width, screen_height) ;;
    Ok {| ascii_width := width;
          ascii_height := ascii_height;
          use_color := use_color;
          chars := select_chars use_extended_chars;
          show_preview := show_preview;
          fps := cap_fps cap;
          frame_count := cap_frame_count cap;
          original_width := original_width;
          original_height := original_height;
          font := fnt;
          ascii_screen_width := ascii_screen_width;
          ascii_screen_height := ascii_screen_height;
          preview_width := preview_width;
          preview_height := preview_height;
          screen_width := screen_width;
          screen_height := screen_height |}.

(** ** Pacing ([play], its first statement)

    [frame_delay = int(1000 / self.fps) if self.fps > 0 else 30] *)
Definition frame_delay (fps : float) : result Z :=
  if float_ltb 0%float fps
  then (q <- float_truediv (float_of_Z 1000) fps ;; int_of_float q)
  else Ok 30.

(** ** Frame conversion ([frame_to_ascii]) *)

(** The image operations of OpenCV the conversion calls: the resampling
    kernel of [cv2.resize], the per-pixel luminance of
    [cv2.cvtColor(_, COLOR_BGR2GRAY)] and [cv2.equalizeHist]. *)
Class ImageProvider : Type := {
  resample : image -> Z -> Z -> image;
  luma : pixel -> Z;
  equalizeHist : gray_image -> gray_image
}.

(** [rows] rows of [cols] samples each. *)
Definition has_shape {A : Type} (rows cols : Z) (img : list (list A)) : Prop :=
  Z.of_nat (List.length img) = rows /\
  Forall (fun r => Z.of_nat (List.length r) = cols) img.

(** Every sample equals [c]. *)
Definition flat {A : Type} (c : A) (img : list (list A)) : Prop :=
  Forall (Forall (eq c)) img.

Definition is_byte (v : Z) : Prop := 0 <= v <= 255.

Definition black : pixel := (0, 0, 0).

(** What the conversion relies on: [cv2.resize] returns [h] rows of [w]
    samples; [equalizeHist] keeps the shape and returns an 8-bit channel; a
    black frame stays black through resampling, luminance and equalization. *)
Class ProviderLaws (P : ImageProvider) : Prop := {
  resample_shape : forall img w h, 0 < w -> 0 < h -> has_shape h w (resample img w h);
  equalizeHist_shape : forall g h w, has_shape h w g -> has_shape h w (equalizeHist g);
  equalizeHist_byte : forall g, Forall (Forall is_byte) (equalizeHist g);
  resample_black : forall img w h, flat black img -> flat black (resample img w h);
  luma_black : luma black = 0;
  equalizeHist_zero : forall g, flat 0 g -> flat 0 (equalizeHist g)
}.

Definition image_empty {A : Type} (img : list (list A)) : bool :=
  match img with
  | [] => true
  | r :: _ => match r with [] => true | _ :: _ => false end
  end.

Section Conversion.

Context {P : ImageProvider}.

(** [cv2.resize(frame, (w, h))]: an empty source or target size is an
    error. *)
Definition cv2_resize (frame : image) (dsize : Z * Z) : result image :=
  let '(w, h) := dsize in
  if (w <=? 0) || (h <=? 0) || image_empty frame then Raise CvError
  else Ok (resample frame w h).

Definition cvtColor_BGR2GRAY (img : image) : gray_image :=
  map (map luma) img.

(** The inner loop: [ascii_frame += self.chars[char_index]]. *)
Fixpoint row_to_ascii (chars : string) (row : list Z) (ascii_frame : string)
  : result string :=
  match row with
  | [] => Ok ascii_frame
  | pixel_value :: row' =>
      c <- pixel_glyph chars pixel_value ;;
      row_to_ascii chars row' (ascii_frame ++ String c EmptyString)
  end.

(** The outer loop: one row, then [ascii_frame += "\n"]. *)
Fixpoint rows_to_ascii (chars : string) (gray : gray_image) (ascii_frame : string)
  : result string :=
  match gray with
  | [] => Ok ascii_frame
  | row :: gray' =>
      ascii_frame' <- row_to_ascii chars row ascii_frame ;;
      rows_to_ascii chars gray' (ascii_frame' ++ String newline EmptyString)
  end.

Definition frame_to_ascii (self : session) (frame : image)
  : result (string * option image) :=
  resized <- cv2_resize frame (ascii_width self, ascii_height self) ;;
  let gray := equalizeHist (cvtColor_BGR2GRAY resized) in
  let color_array := if use_color self then Some resized else None in
  ascii_frame <- rows_to_ascii (chars self) gray EmptyString ;;
  Ok (ascii_frame, color_array).

End Conversion.

(** ** Drawing ([draw_ascii_frame]) *)

(** One [self.screen.blit(self.font.render(char, True, color), (x, y))]. *)
Record blit : Type := {
  glyph : ascii;
  color : Z * Z * Z;
  at_x : Z;
  at_y : Z
}.

(** [color_array[row_idx, col_idx]] *)
Definition color_at (color_array : image) (row_idx col_idx : nat) : result pixel :=
  match nth_error color_array row_idx with
  | None => Raise IndexError
  | Some row => match nth_error row col_idx with
                | None => Raise IndexError
                | Some p => Ok p
                end
  end.

(** The color of one cell: the BGR sample reordered to RGB when a color
    array is at hand in color mode, the gray of the glyph otherwise. *)
Definition cell_color (self : session) (color_array : option image)
    (row_idx col_idx : nat) (char : ascii) : result (Z * Z * Z) :=
  match use_color self, color_array with
  | true, Some ca =>
      '(b, g, r) <- color_at ca row_idx col_idx ;;
      Ok (r, g, b)
  | _, _ =>
      gray <- gray_val (chars self) char ;;
      Ok (gray, gray, gray)
  end.

(** The loop over the characters of one line; [x += char_width].  The
    result lists the blits of a line drawn to its end; when a cell raises,
    the error is the result. *)
Fixpoint draw_line (self : session) (color_array : option image)
    (row_idx : nat) (line : string) (col_idx : nat) (x y : Z) : result (list blit) :=
  match line with
  | EmptyString => Ok []
  | String char line' =>
      color <- cell_color self color_array row_idx col_idx char ;;
      rest <- draw_line self color_array row_idx line' (S col_idx)
                (x + glyph_width (font self)) y ;;
      Ok ({| glyph := char; color := color; at_x := x; at_y := y |} :: rest)
  end.

(** The loop over the lines; an empty line is skipped and does not advance
    [y]. *)
Fixpoint draw_lines (self : session) (color_array : option image)
    (lines : list string) (row_idx : nat) (y : Z) : result (list blit) :=
  match lines with
  | [] => Ok []
  | line :: lines' =>
      match line with
      | EmptyString => draw_lines self color_array lines' (S row_idx) y
      | String _ _ =>
          here <- draw_line self color_array row_idx line O 10 y ;;
          rest <- draw_lines self color_array lines' (S row_idx)
                    (y + glyph_height (font self)) ;;
          Ok (here ++ rest)
      end
  end.

Definition draw_ascii_frame (self : session) (ascii_text : string)
    (color_array : option image) : result (list blit) :=
  draw_lines self color_array (split newline ascii_text) O 10.

(** ** Playback ([play], [cleanup]) *)

Inductive key : Type := K_ESCAPE | K_q | K_SPACE | K_r | K_p | K_other.

(** What [pygame.event.get()] hands over. *)
Inductive event : Type :=
| QUIT
| KEYDOWN (k : key)
| OTHER.

(** The mutable part of a running player: the capture with its read cursor,
    [self.running], the local [paused] and [self.show_preview]. *)
Record player : Type := {
  cap : capture;
  running : bool;
  paused : bool;
  preview_on : bool
}.

Inductive playback_state : Type := Playing | Paused | Stopped.

Definition state_of (st : player) : playback_state :=
  if negb (running st) then Stopped
  else if paused st then Paused else Playing.

(** What the loop does to the outside, in the order it does it. *)
Inductive effect : Type :=
| FrameRead (index : nat)
| Flip (blits : list blit) (preview : bool) (current_frame : nat)
| ClockTick (framerate : float)
| TimeWait (ms : Z)
| PausedFlip
| CapRelease
| PygameQuit.

(** [self.cap.set(cv2.CAP_PROP_POS_FRAMES, n)] *)
Definition cap_set_pos (c : capture) (n : nat) : capture :=
  {| opened := opened c; cap_fps := cap_fps c;
     cap_frame_count := cap_frame_count c;
     cap_width := cap_width c; cap_height := cap_height c;
     frames := frames c; pos := n |}.

(** [self.cap.read()]: the frame under the cursor, which then advances; at
    the end of the stream [ret] is false. *)
Definition cap_read (c : capture) : option image * capture :=
  match nth_error (frames c) (pos c) with
  | Some frame => (Some frame, cap_set_pos c (S (pos c)))
  | None => (None, c)
  end.

(** One event of the [for event in pygame.event.get()] loop. *)
Definition handle_event (st : player) (ev : event) : player :=
  match ev with
  | QUIT =>
      {| cap := cap st; running := false; paused := paused st;
         preview_on := preview_on st |}
  | KEYDOWN K_ESCAPE | KEYDOWN K_q =>
      {| cap := cap st; running := false; paused := paused st;
         preview_on := preview_on st |}
  | KEYDOWN K_SPACE =>
      {| cap := cap st; running := running st; paused := negb (paused st);
         preview_on := preview_on st |}
  | KEYDOWN K_r =>
      {| cap := cap_set_pos (cap st) 0; running := running st; paused := false;
         preview_on := preview_on st |}
  | KEYDOWN K_p =>
      {| cap := cap st; running := running st; paused := paused st;
         preview_on := negb (preview_on st) |}
  | KEYDOWN K_other | OTHER => st
  end.

Definition handle_events (st : player) (events : list event) : player :=
  fold_left handle_event events st.

Inductive outcome : Type :=
| Finished (st : player)
| Raised (e : exn)
| Starved (st : player).

Section Playback.

Context {P : ImageProvider}.
Variable self : session.

(** [draw_preview]: the frame is resized to the preview box. *)
Definition draw_preview (frame : image) : result unit :=
  _ <- cv2_resize frame (preview_width self, preview_height self) ;;
  Ok tt.

(** Conversion and drawing of one frame. *)
Definition render (preview : bool) (frame : image) : result (list blit) :=
  '(ascii_text, color_array) <- frame_to_ascii self frame ;;
  blits <- draw_ascii_frame self ascii_text color_array ;;
  _ <- (if preview then draw_preview frame else Ok tt) ;;
  Ok blits.

(** One turn of [while self.running]: the events of one poll, then a frame
    or the pause screen. *)
Definition cycle (events : list event) (st : player)
  : list effect * result player :=
  let st := handle_events st events in
  if negb (paused st) then
    match cap_read (cap st) with
    | (None, _) =>
        ([], Ok {| cap := cap_set_pos (cap st) 0; running := running st;
                   paused := paused st; preview_on := preview_on st |})
    | (Some frame, cap') =>
        match render (preview_on st) frame with
        | Raise e => ([FrameRead (pos (cap st))], Raise e)
        | Ok blits =>
            ([FrameRead (pos (cap st));
              Flip blits (preview_on st) (pos cap');
              ClockTick (fps self)],
             Ok {| cap := cap'; running := running st;
                   paused := paused st; preview_on := preview_on st |})
        end
    end
  else ([TimeWait 100; PausedFlip], Ok st).

(** The loop, fed one poll of events per turn.  [Starved] means the polls
    ran out while the player was still running. *)
Fixpoint play_loop (polls : list (list event)) (st : player)
  : list effect * outcome :=
  if negb (running st) then ([], Finished st)
  else
    match polls with
    | [] => ([], Starved st)
    | events :: polls' =>
        match cycle events st with
        | (effs, Raise e) => (effs, Raised e)
        | (effs, Ok st') =>
            let '(effs', out) := play_loop polls' st' in
            (effs ++ effs', out)
        end
    end.

(** [cleanup] *)
Definition cleanup : list effect := [CapRelease; PygameQuit].

(** [play]: [self.running = True], the frame delay, [paused = False], the
    loop and, when the loop ends, [cleanup]. *)
Definition play (c : capture) (polls : list (list event))
  : list effect * outcome :=
  match frame_delay (fps self) with
  | Raise e => ([], Raised e)
  | Ok _ =>
      let st := {| cap := c; running := true; paused := false;
                   preview_on := show_preview self |} in
      match play_loop polls st with
      | (effs, Finished st') => (effs ++ cleanup, Finished st')
      | (effs, out) => (effs, out)
      end
  end.

End Playback.

Definition is_release (e : effect) : bool :=
  match e with CapRelease => true | _ => false end.

Definition is_quit (ev : event) : bool :=
  match ev with
  | QUIT | KEYDOWN K_ESCAPE | KEYDOWN K_q => true
  | _ => false
  end.

Definition is_quit_key (ev : event) : bool :=
  match ev with
  | KEYDOWN K_ESCAPE | KEYDOWN K_q => true
  | _ => false
  end.

(** The indices of the frames read, in order. *)
Fixpoint frames_read (effs : list effect) : list nat :=
  match effs with
  | [] => []
  | FrameRead i :: effs' => i :: frames_read effs'
  | _ :: effs' => frames_read effs'
  end.

(** ** A reference image provider

    Nearest-neighbour resampling, the fixed-point BT.601 luminance and
    histogram equalization through the cumulative histogram, with the
    shortcut for a single-valued channel: a provider that satisfies
    [ProviderLaws], used to run the player on concrete frames. *)

Module Reference.

Definition range (n : Z) : list Z := map Z.of_nat (seq 0 (Z.to_nat n)).

Definition nearest_resample (img : image) (w h : Z) : image :=
  let src_h := Z.of_nat (List.length img) in
  let src_w := Z.of_nat (List.length (nth 0 img [])) in
  map (fun y =>
         map (fun x =>
                nth (Z.to_nat (x * src_w / w))
                    (nth (Z.to_nat (y * src_h / h)) img []) black)
             (range w))
      (range h).

Definition bt601_luma (p : pixel) : Z :=
  let '(b, g, r) := p in
  (3735 * b + 19235 * g + 9798 * r + 16384) / 32768.

Definition to_byte (v : Z) : Z := Z.min 255 (Z.max 0 v).

Definition count (p : Z -> bool) (l : list Z) : Z :=
  Z.of_nat (List.length (filter p l)).

Definition equalize_hist (g : gray_image) : gray_image :=
  let samples := map to_byte (List.concat g) in
  let total := Z.of_nat (List.length samples) in
  let lowest := fold_right Z.min 255 samples in
  let h0 := count (Z.eqb lowest) samples in
  if h0 =? total then map (map (fun _ => lowest)) g
  else
    let d := total - h0 in
    map (map (fun v =>
                let below := count (fun u => u <=? to_byte v) samples in
                to_byte ((2 * 255 * (below - h0) + d) / (2 * d)))) g.

#[export] Instance provider : ImageProvider := {|
  resample := nearest_resample;
  luma := bt601_luma;
  equalizeHist := equalize_hist
|}.

(** A 4 x 2 test frame, black on the left and white on the right. *)
Definition white : pixel := (255, 255, 255).
Definition half_frame : image :=
  [[black; black; white; white]; [black; black; white; white]].
Definition black_frame : image :=
  [[black; black; black; black]; [black; black; black; black]].

Definition test_capture : capture :=
  {| opened := true; cap_fps := 30%float; cap_frame_count := 2;
     cap_width := 4; cap_height := 2;
     frames := [half_frame; black_frame]; pos := 0 |}.

Definition test_font : font_metrics := {| glyph_width := 6; glyph_height := 12 |}.

(** A 640 x 480 source, as in the default-height example. *)
Definition vga_capture : capture :=
  {| opened := true; cap_fps := 30%float; cap_frame_count := 0;
     cap_width := 640; cap_height := 480; frames := []; pos := 0 |}.

(** The session [init test_capture test_font 4 (Some 2) color false true]. *)
Definition test_session (color : bool) : session :=
  {| ascii_width := 4; ascii_height := 2; use_color := color;
     chars := ASCII_CHARS; show_preview := true; fps := 30%float;
     frame_count := 2; original_width := 4; original_height := 2;
     font := test_font;
     ascii_screen_width := 24; ascii_screen_height := 24;
     preview_width := 240; preview_height := 120;
     screen_width := 44; screen_height := 44 |}.

(** The text of [half_frame] at 4 x 2 in the standard set. *)
Definition half_text : string :=
  ("  @@" ++ String newline ("  @@" ++ String newline EmptyString))%string.

(** The session [init test_capture test_font 2 None true false true]: the
    derived grid height is 0. *)
Definition flat_session : session :=
  {| ascii_width := 2; ascii_height := 0; use_color := true;
     chars := ASCII_CHARS; show_preview := true; fps := 30%float;
     frame_count := 2; original_width := 4; original_height := 2;
     font := test_font;
     ascii_screen_width := 12; ascii_screen_height := 0;
     preview_width := 240; preview_height := 120;
     screen_width := 32; screen_height := 20 |}.

(** Captures for the failure paths of the constructor. *)
Definition unopened_capture : capture :=
  {| opened := false; cap_fps := 0%float; cap_frame_count := 0;
     cap_width := 0; cap_height := 0; frames := []; pos := 0 |}.

Definition zero_width_capture : capture :=
  {| opened := true; cap_fps := 30%float; cap_frame_count := 0;
     cap_width := 0; cap_height := 480; frames := []; pos := 0 |}.

Definition zero_height_capture : capture :=
  {| opened := true; cap_fps := 30%float; cap_frame_count := 0;
     cap_width := 640; cap_height := 0; frames := []; pos := 0 |}.

End Reference.

(** ** The command line ([main] of [ascii_video_player.py]) *)

(** The locals [width], [height], [use_color], [use_extended] and
    [show_preview] of [main]. *)
Record options : Type := {
  opt_width : Z;
  opt_height : option Z;
  opt_color : bool;
  opt_extended : bool;
  opt_preview : bool
}.

Definition default_options : options :=
  {| opt_width := 120; opt_height := None; opt_color := true;
     opt_extended := false; opt_preview := true |}.

(** The three flags that take no value; any other word leaves the options
    as they are (the final [else: i += 1]). *)
Definition apply_flag (arg : string) (o : options) : options :=
  if String.eqb arg "--no-color" then
    {| opt_width := opt_width o; opt_height := opt_height o; opt_color := false;
       opt_extended := opt_extended o; opt_preview := opt_preview o |}
  else if String.eqb arg "--extended" then
    {| opt_width := opt_width o; opt_height := opt_height o; opt_color := opt_color o;
       opt_extended := true; opt_preview := opt_preview o |}
  else if String.eqb arg "--no-preview" then
    {| opt_width := opt_width o; opt_height := opt_height o; opt_color := opt_color o;
       opt_extended := opt_extended o; opt_preview := false |}
  else o.


Section Main.

Context {P : ImageProvider}.

(** The builtin [int] on a string. *)
Variable int_of_str : string -> result Z.
(** [cv2.VideoCapture(video_path)], the font pygame finds, and the events
    the user produces, one poll per turn. *)
Variable open_video : string -> capture.
Variable fnt : font_metrics.
Variable polls : list (list event).

(** The [while i < len(sys.argv)] loop over [sys.argv[2:]]: [--width] and
    [--height] take the next word when there is one. *)
Fixpoint parse_args (args : list string) (o : options) : result options :=
  match args with
  | [] => Ok o
  | arg :: rest =>
      match rest with
      | value :: rest' =>
          if String.eqb arg "--width" then
            w <- int_of_str value ;;
            parse_args rest'
              {| opt_width := w; opt_height := opt_height o; opt_color := opt_color o;
                 opt_extended := opt_extended o; opt_preview := opt_preview o |}
          else if String.eqb arg "--height" then
            h <- int_of_str value ;;
            parse_args rest'
              {| opt_width := opt_width o; opt_height := Some h; opt_color := opt_color o;
                 opt_extended := opt_extended o; opt_preview := opt_preview o |}
          else parse_args rest (apply_flag arg o)
      | [] => parse_args rest (apply_flag arg o)
      end
  end.


End Main.

(** ** The size calculator ([video_size_calculator.py]) *)

(** The values [calculate_ascii_video_size] prints. *)
Record size_report : Type := {
  duration : float;
  report_ascii_height : Z;
  chars_per_frame : Z;
  txt_size_gray : Z;
  txt_size_color : Z;
  txt_compressed_gray : float;
  txt_compressed_color : float;
  render_width : Z;
  render_height : Z;
  bitrate_medium : float;
  reencoded_medium : float
}.

(** [calculate_ascii_video_size]: [None] when the file does not open.  The
    first ratio printed divides by [original_size], the size of the file;
    the factor of the bitrate is the double nearest to [0.1]. *)
Definition calculate_ascii_video_size (cap : capture) (original_size : Z)
    (ascii_width : Z) : result (option size_report) :=
  if negb (opened cap) then Ok None
  else
    let fps := cap_fps cap in
    let frame_count := cap_frame_count cap in
    let width := cap_width cap in
    let height := cap_height cap in
    duration <- (if float_ltb 0%float fps
                 then float_truediv (float_of_Z frame_count) fps
                 else Ok (float_of_Z 0)) ;;
    ascii_height <- derived_height ascii_width width height ;;
    let chars_per_frame := ascii_width * ascii_height in
    let bytes_per_char := 1 in
    let color_bytes_per_char := 3 in
    let txt_size_gray := chars_per_frame * bytes_per_char * frame_count in
    let txt_size_color :=
      chars_per_frame * (bytes_per_char + color_bytes_per_char) * frame_count in
    txt_compressed_gray <- int_truediv txt_size_gray 10 ;;
    txt_compressed_color <- int_truediv txt_size_color 8 ;;
    let render_width := ascii_width * 6 in
    let render_height := ascii_height * 12 in
    let bitrate_medium :=
      PrimFloat.mul
        (PrimFloat.mul (float_of_Z (render_width * render_height)) fps)
        (0x1.999999999999ap-4)%float in
    reencoded_medium <-
      float_truediv (PrimFloat.mul bitrate_medium duration) (float_of_Z 8) ;;
    _ <- int_truediv txt_size_gray original_size ;;
    Ok (Some {| duration := duration;
                report_ascii_height := ascii_height;
                chars_per_frame := chars_per_frame;
                txt_size_gray := txt_size_gray;
                txt_size_color := txt_size_color;
                txt_compressed_gray := txt_compressed_gray;
                txt_compressed_color := txt_compressed_color;
                render_width := render_width;
                render_height := render_height;
                bitrate_medium := bitrate_medium;
                reencoded_medium := reencoded_medium |}).

(** ** The demo video ([create_demo_video.py]) *)

(** [range(n)] *)
Definition py_range (n : Z) : list Z := map Z.of_nat (seq 0 (Z.to_nat n)).

(** The background of one row:
    [color_val = int(255 * y / height)] and the row
    [[color_val // 3, color_val // 2, color_val]]. *)
Definition gradient_row (height y : Z) : result pixel :=
  q <- int_truediv (255 * y) height ;;
  color_val <- int_of_float q ;;
  Ok (color_val / 3, color_val / 2, color_val).

(** The seconds reported while the frames are written: for [frame_num] in
    [range(duration * fps)], [(frame_num + 1) // fps] whenever
    [(frame_num + 1) % fps == 0]. *)
Definition progress_reports (duration fps : Z) : list Z :=
  map (fun frame_num => (frame_num + 1) / fps)
      (filter (fun frame_num => (frame_num + 1) mod fps =? 0)
              (py_range (duration * fps))).

(** * Vocabulary of the properties *)

Definition result_eqb (a b : result Z) : bool :=
  match a, b with
  | Ok x, Ok y => x =? y
  | _, _ => false
  end.

Definition below (n : nat) (p : Z -> bool) : bool :=
  forallb p (map Z.of_nat (seq 0 n)).

(** The integer the real-number formula [floor(sqrt(v/255) * (n - 1))]
    denotes: the largest [k] with [255 * k^2 <= v * (n - 1)^2]. *)
Definition exact_index (n v : Z) : Z := Z.sqrt (v * (n - 1) ^ 2 / 255).

Definition glyphs (s : string) : list ascii := list_ascii_of_string s.

Fixpoint has_duplicate (l : list ascii) : bool :=
  match l with
  | [] => false
  | c :: l' => existsb (Ascii.eqb c) l' || has_duplicate l'
  end.

(** The check run on every position of a character set: the glyph there is
    found again at the same position, and its gray value is the exact
    [floor(i * 255 / n)]. *)
Definition position_ok (chars : string) (i : Z) : bool :=
  match String.get (Z.to_nat i) chars with
  | Some c =>
      result_eqb (index chars c) (Ok i) &&
      result_eqb (gray_val chars c) (Ok (i * 255 / len chars))
  | None => false
  end.

Definition whole_rate_ok (n : Z) : bool :=
  if n =? 0 then true
  else result_eqb (frame_delay (float_of_Z n)) (Ok (1000 / n)).

(** The text of a grid of lines: each line followed by a newline. *)
Fixpoint join_lines (lines : list string) : string :=
  match lines with
  | [] => EmptyString
  | l :: ls => (l ++ String newline (join_lines ls))%string
  end.

(** The glyph the code appends for a sample. *)
Definition glyph_of (chars : string) (v : Z) (c : ascii) : Prop :=
  pixel_glyph chars v = Ok c.

(** The channel the glyphs are chosen from. *)
Definition equalized {P : ImageProvider} (self : session) (frame : image) : gray_image :=
  equalizeHist
    (cvtColor_BGR2GRAY (resample frame (ascii_width self) (ascii_height self))).

Definition not_newline (c : ascii) : bool := negb (Ascii.eqb c newline).

(** A blit whose color is the one [cell_color] computes for some cell. *)
Definition colored_by (self : session) (color_array : option image) (b : blit) : Prop :=
  exists row_idx col_idx,
    cell_color self color_array row_idx col_idx (glyph b) = Ok (color b).

Definition drawable (chars : string) (c : ascii) : bool :=
  Ascii.eqb c newline || existsb (Ascii.eqb c) (glyphs chars).

Definition is_teardown (e : effect) : bool :=
  match e with PygameQuit => true | _ => false end.

Definition is_cleanup (e : effect) : bool := is_release e || is_teardown e.

(** Events that leave a pause as it is: everything but space and [r]. *)
Definition keeps_pause (ev : event) : bool :=
  match ev with
  | KEYDOWN K_SPACE | KEYDOWN K_r => false
  | _ => true
  end.

Definition is_preview_key (ev : event) : bool :=
  match ev with KEYDOWN K_p => true | _ => false end.

(** What a trace may hold for a video of [n] frames: reads below [n], and
    with each frame shown a counter between 1 and [n]. *)
Definition within_video (n : nat) (e : effect) : Prop :=
  match e with
  | FrameRead i => (i < n)%nat
  | Flip _ _ current_frame => (1 <= current_frame <= n)%nat
  | _ => True
  end.

Definition is_tick (e : effect) : bool :=
  match e with ClockTick _ => true | _ => false end.

(** The player [play] starts the loop with. *)
Definition initial_player (self : session) (c : capture) : player :=
  {| cap := c; running := true; paused := false; preview_on := show_preview self |}.

(** Where a blit lands. *)
Definition place (b : blit) : Z * Z := (at_x b, at_y b).

(** The places of [n] cells of one line, [cw] apart from [x] on. *)
Definition line_places (n : nat) (x y cw : Z) : list (Z * Z) :=
  map (fun j => (x + Z.of_nat j * cw, y)) (seq 0 n).

(** The places of a grid of [h] lines of [w] cells: the margin of 10, then
    a cell every [cw] to the right and a line every [ch] down. *)
Definition grid_places (h w : nat) (cw ch : Z) : list (Z * Z) :=
  List.flat_map (fun i => line_places w 10 (10 + Z.of_nat i * ch) cw) (seq 0 h).

(** A BGR sample in the order pygame takes it. *)
Definition rgb_of_bgr (p : pixel) : Z * Z * Z :=
  let '(b, g, r) := p in (r, g, b).

(** The two options of [main] that take a value. *)
Definition is_value_option (arg : string) : bool :=
  String.eqb arg "--width" || String.eqb arg "--height".

Definition mentions (word : string) (args : list string) : bool :=
  existsb (String.eqb word) args.

(** The flags of a run of words, taken one by one. *)
Definition flags_of (args : list string) (o : options) : options :=
  fold_left (fun o arg => apply_flag arg o) args o.

Definition with_width (w : Z) (o : options) : options :=
  {| opt_width := w; opt_height := opt_height o; opt_color := opt_color o;
     opt_extended := opt_extended o; opt_preview := opt_preview o |}.

Definition with_height (h : Z) (o : options) : options :=
  {| opt_width := opt_width o; opt_height := Some h; opt_color := opt_color o;
     opt_extended := opt_extended o; opt_preview := opt_preview o |}.

(** The check run on every row of the demo background. *)
Definition gradient_ok (y : Z) : bool :=
  match gradient_row 480 y with
  | Ok (b, g, r) =>
      (r =? 255 * y / 480) && (g =? r / 2) && (b =? r / 3)
  | Raise _ => false
  end.

(** The trace of [n] turns of a paused player. *)
Definition pause_turns (n : nat) : list effect :=
  List.concat (repeat [TimeWait 100; PausedFlip] n).

(** * Properties *)

(** ** Checking a property on every byte *)

Lemma result_eqb_eq (a : result Z) (z : Z) : result_eqb a (Ok z) = true -> a = Ok z.
Proof.
  destruct a as [x|e]; simpl; [|discriminate].
  intros H. apply Z.eqb_eq in H. now subst.
Qed.

Lemma below_spec (n : nat) (p : Z -> bool) :
  below n p = true -> forall v, 0 <= v < Z.of_nat n -> p v = true.
Proof.
  unfold below. intros H v Hv.
  rewrite forallb_forall in H. apply H.
  apply in_map_iff. exists (Z.to_nat v). split; [lia|].
  apply in_seq. lia.
Qed.

Lemma len_standard : len ASCII_CHARS = 12.
Proof. reflexivity. Qed.

Lemma len_extended : len ASCII_CHARS_EXTENDED = 70.
Proof. reflexivity. Qed.

Lemma len_select (ext : bool) : 1 <= len (select_chars ext).
Proof. destruct ext; cbn [select_chars]; [rewrite len_extended | rewrite len_standard]; lia. Qed.

(** ** The index mapping *)

Lemma exact_index_floor (n v : Z) :
  0 <= v -> 1 <= n ->
  255 * exact_index n v ^ 2 <= v * (n - 1) ^ 2 < 255 * (exact_index n v + 1) ^ 2.
Proof.
  intros Hv Hn. unfold exact_index.
  set (a := v * (n - 1) ^ 2).
  assert (Ha : 0 <= a) by (unfold a; nia).
  assert (Hq : 0 <= a / 255) by (apply Z.div_pos; lia).
  pose proof (Z.sqrt_spec (a / 255) Hq) as Hs. cbv zeta in Hs.
  set (k := Z.sqrt (a / 255)) in *.
  pose proof (Z.div_mod a 255 ltac:(lia)) as Hd.
  pose proof (Z.mod_pos_bound a 255 ltac:(lia)) as Hm.
  replace (k ^ 2) with (k * k) by ring.
  replace ((k + 1) ^ 2) with (Z.succ k * Z.succ k) by (unfold Z.succ; ring).
  split; nia.
Qed.

Lemma exact_index_mono (n v1 v2 : Z) :
  0 <= v1 <= v2 -> exact_index n v1 <= exact_index n v2.
Proof.
  intros H. unfold exact_index.
  apply Z.sqrt_le_mono. apply Z.div_le_mono; [lia|].
  apply Z.mul_le_mono_nonneg_r; [apply Z.pow_even_nonneg; now exists 1 | lia].
Qed.

Lemma exact_index_bound (n v : Z) :
  0 <= v <= 255 -> 1 <= n -> 0 <= exact_index n v <= n - 1.
Proof.
  intros Hv Hn. split; [apply Z.sqrt_nonneg|].
  unfold exact_index.
  replace (n - 1) with (Z.sqrt ((n - 1) * (n - 1))) at 2
    by (apply Z.sqrt_square; lia).
  apply Z.sqrt_le_mono.
  apply Z.div_le_upper_bound; [lia|]. nia.
Qed.

(** On every byte the double-precision computation of the code returns the
    exact integer. *)
Lemma char_index_exact (ext : bool) (v : Z) :
  0 <= v <= 255 ->
  char_index (select_chars ext) v = Ok (exact_index (len (select_chars ext)) v).
Proof.
  intros Hv. apply result_eqb_eq.
  apply (below_spec 256
           (fun v => result_eqb (char_index (select_chars ext) v)
                       (Ok (exact_index (len (select_chars ext)) v))));
    [|lia].
  destruct ext; vm_compute; reflexivity.
Qed.

Lemma get_in_range (s : string) (n : nat) :
  (n < String.length s)%nat -> exists c, String.get n s = Some c.
Proof.
  revert n. induction s as [|d s IH]; intros n Hn; simpl in Hn; [lia|].
  destruct n as [|n]; simpl; [now exists d|].
  apply IH. lia.
Qed.

Lemma getitem_in_range (s : string) (i : Z) :
  0 <= i <= len s - 1 ->
  exists c, getitem s i = Ok c /\ String.get (Z.to_nat i) s = Some c.
Proof.
  intros Hi. unfold getitem.
  destruct (i <? 0) eqn:Hneg; [apply Z.ltb_lt in Hneg; lia|].
  rewrite Hneg. simpl.
  destruct (len s <=? i) eqn:Hle; [apply Z.leb_le in Hle; lia|].
  destruct (get_in_range s (Z.to_nat i)) as [c Hc]; [unfold len in Hi; lia|].
  exists c. now rewrite Hc.
Qed.

(** C3. The mapping from luminance to character index is monotone: for
    bytes [v1 < v2] the code computes indices [i1 <= i2], and each index [i]
    is [floor(sqrt(v/255) * (n - 1))] for the [n] glyphs of the active set,
    that is the [i >= 0] with [255 * i^2 <= v * (n - 1)^2 < 255 * (i + 1)^2],
    which the clamp to [[0, n - 1]] leaves as it is. *)
Theorem char_index_monotone (ext : bool) (v1 v2 : Z) :
  0 <= v1 -> v1 < v2 -> v2 <= 255 ->
  let chars := select_chars ext in
  let is_floor v i :=
    0 <= i /\
    255 * i ^ 2 <= v * (len chars - 1) ^ 2 < 255 * (i + 1) ^ 2 /\
    i = Z.min (Z.max i 0) (len chars - 1) in
  exists i1 i2,
    char_index chars v1 = Ok i1 /\
    char_index chars v2 = Ok i2 /\
    i1 <= i2 /\
    is_floor v1 i1 /\
    is_floor v2 i2.
Proof.
  intros H1 H12 H2 chars is_floor. subst chars is_floor. cbv beta.
  pose proof (len_select ext) as Hn.
  exists (exact_index (len (select_chars ext)) v1),
         (exact_index (len (select_chars ext)) v2).
  pose proof (exact_index_bound (len (select_chars ext)) v1 ltac:(lia) Hn).
  pose proof (exact_index_bound (len (select_chars ext)) v2 ltac:(lia) Hn).
  pose proof (exact_index_floor (len (select_chars ext)) v1 ltac:(lia) Hn).
  pose proof (exact_index_floor (len (select_chars ext)) v2 ltac:(lia) Hn).
  split; [apply char_index_exact; lia|].
  split; [apply char_index_exact; lia|].
  split; [apply exact_index_mono; lia|].
  split; (split; [lia|split; [assumption|lia]]).
Qed.

Lemma char_index_monotone_witness :
  exists i1 i2,
    char_index ASCII_CHARS 100 = Ok i1 /\ char_index ASCII_CHARS 200 = Ok i2 /\
    i1 <= i2.
Proof.
  destruct (char_index_monotone false 100 200) as (i1 & i2 & E1 & E2 & Hle & _);
    [lia | lia | lia |].
  exists i1, i2. auto.
Defined.

Lemma index_and_glyph (ext : bool) (v : Z) :
  0 <= v <= 255 ->
  exists i c,
    char_index (select_chars ext) v = Ok i /\
    0 <= i <= len (select_chars ext) - 1 /\
    getitem (select_chars ext) i = Ok c /\
    String.get (Z.to_nat i) (select_chars ext) = Some c /\
    pixel_glyph (select_chars ext) v = Ok c.
Proof.
  intros Hv.
  pose proof (len_select ext) as Hn.
  pose proof (exact_index_bound (len (select_chars ext)) v Hv Hn) as Hb.
  destruct (getitem_in_range _ _ Hb) as (c & Hc & Hg).
  exists (exact_index (len (select_chars ext)) v), c.
  pose proof (char_index_exact ext v Hv) as E.
  repeat split; try lia; auto.
  unfold pixel_glyph. rewrite E. exact Hc.
Qed.

(** C4. On every byte the computed index lies in [[0, n - 1]] and the
    subscript [self.chars[char_index]] succeeds, for the standard and for the
    extended set. *)
Theorem char_index_in_range (ext : bool) (v : Z) :
  0 <= v <= 255 ->
  let chars := select_chars ext in
  exists i c,
    char_index chars v = Ok i /\
    0 <= i <= len chars - 1 /\
    getitem chars i = Ok c /\
    pixel_glyph chars v = Ok c.
Proof.
  intros Hv chars. subst chars.
  destruct (index_and_glyph ext v Hv) as (i & c & E & Hi & Hc & _ & Hp).
  exists i, c. auto.
Qed.

Lemma char_index_in_range_witness :
  exists i c,
    char_index ASCII_CHARS_EXTENDED 255 = Ok i /\
    0 <= i <= 69 /\ getitem ASCII_CHARS_EXTENDED i = Ok c.
Proof.
  destruct (char_index_in_range true 255) as (i & c & E & Hi & Hc & _); [lia|].
  exists i, c. auto.
Defined.

(** ** Glyphs and their positions *)

Lemma has_duplicate_NoDup (l : list ascii) : has_duplicate l = false -> NoDup l.
Proof.
  induction l as [|c l IH]; simpl; intros H; [constructor|].
  apply orb_false_iff in H. destruct H as [Hc Hl].
  constructor; [|now apply IH].
  intros Hin.
  assert (existsb (Ascii.eqb c) l = true) as E
    by (apply existsb_exists; exists c; split; [exact Hin | apply Ascii.eqb_refl]).
  congruence.
Qed.

Lemma in_glyphs_get (s : string) (c : ascii) :
  In c (glyphs s) -> exists n, (n < String.length s)%nat /\ String.get n s = Some c.
Proof.
  induction s as [|d s IH]; simpl; intros H; [contradiction|].
  destruct H as [H|H].
  - subst. exists O. split; [lia|reflexivity].
  - destruct (IH H) as (n & Hn & Hg). exists (S n). split; [lia|exact Hg].
Qed.

Lemma get_in_glyphs (s : string) (n : nat) (c : ascii) :
  String.get n s = Some c -> In c (glyphs s).
Proof.
  revert n. induction s as [|d s IH]; intros n H; simpl in H; [discriminate|].
  destruct n as [|n].
  - injection H as ->. now left.
  - right. now apply (IH n).
Qed.

Lemma positions_ok (ext : bool) (i : Z) :
  0 <= i <= len (select_chars ext) - 1 ->
  position_ok (select_chars ext) i = true.
Proof.
  intros Hi.
  destruct ext; cbn [select_chars] in *.
  - rewrite len_extended in Hi.
    apply (below_spec 70 (position_ok ASCII_CHARS_EXTENDED)); [|lia].
    vm_compute; reflexivity.
  - rewrite len_standard in Hi.
    apply (below_spec 12 (position_ok ASCII_CHARS)); [|lia].
    vm_compute; reflexivity.
Qed.

Lemma position_ok_inv (chars : string) (i : Z) :
  position_ok chars i = true ->
  exists c, String.get (Z.to_nat i) chars = Some c /\
            index chars c = Ok i /\
            gray_val chars c = Ok (i * 255 / len chars).
Proof.
  unfold position_ok. destruct (String.get (Z.to_nat i) chars) as [c|]; [|discriminate].
  intros H. apply andb_true_iff in H. destruct H as [H1 H2].
  exists c. repeat split; now apply result_eqb_eq.
Qed.

(** Every glyph of the active set has a position, and its gray value is
    computed from that position without rounding error. *)
Lemma gray_val_exact (ext : bool) (c : ascii) :
  In c (glyphs (select_chars ext)) ->
  exists i,
    0 <= i <= len (select_chars ext) - 1 /\
    index (select_chars ext) c = Ok i /\
    gray_val (select_chars ext) c = Ok (i * 255 / len (select_chars ext)).
Proof.
  intros Hin.
  destruct (in_glyphs_get _ _ Hin) as (n & Hn & Hg).
  assert (Hi : 0 <= Z.of_nat n <= len (select_chars ext) - 1) by (unfold len; lia).
  destruct (position_ok_inv _ _ (positions_ok ext _ Hi)) as (c' & Hg' & Hidx & Hgray).
  rewrite Nat2Z.id in Hg'. rewrite Hg in Hg'. injection Hg' as <-.
  exists (Z.of_nat n). auto.
Qed.

Lemma newline_not_glyph (ext : bool) : ~ In newline (glyphs (select_chars ext)).
Proof.
  intros H.
  assert (E : existsb (Ascii.eqb newline) (glyphs (select_chars ext)) = true)
    by (apply existsb_exists; exists newline; split; [exact H | apply Ascii.eqb_refl]).
  destruct ext; vm_compute in E; discriminate.
Qed.

(** C10 (as amended). In both character sets the glyphs are pairwise
    distinct, so the glyph at position [i] is found again at position [i];
    hence in no-color mode the gray value of a cell is derived from exactly
    the index the luminance mapping produced. *)
Theorem glyph_index_roundtrip (ext : bool) :
  let chars := select_chars ext in
  NoDup (glyphs chars) /\
  (forall i, 0 <= i <= len chars - 1 ->
     exists c, getitem chars i = Ok c /\ index chars c = Ok i) /\
  (forall v, 0 <= v <= 255 ->
     exists i c,
       char_index chars v = Ok i /\
       pixel_glyph chars v = Ok c /\
       index chars c = Ok i /\
       gray_val chars c = Ok (i * 255 / len chars)).
Proof.
  intros chars. subst chars.
  assert (Hpos : forall i, 0 <= i <= len (select_chars ext) - 1 ->
            exists c, getitem (select_chars ext) i = Ok c /\
                      index (select_chars ext) c = Ok i /\
                      gray_val (select_chars ext) c =
                        Ok (i * 255 / len (select_chars ext))).
  { intros i Hi.
    destruct (getitem_in_range _ _ Hi) as (c & Hc & Hg).
    destruct (position_ok_inv _ _ (positions_ok ext _ Hi)) as (c' & Hg' & Hidx & Hgray).
    rewrite Hg in Hg'. injection Hg' as <-.
    exists c. auto. }
  split; [|split].
  - apply has_duplicate_NoDup. destruct ext; vm_compute; reflexivity.
  - intros i Hi. destruct (Hpos i Hi) as (c & Hc & Hidx & _). exists c. auto.
  - intros v Hv.
    destruct (index_and_glyph ext v Hv) as (i & c & E & Hi & Hc & _ & Hp).
    destruct (Hpos i Hi) as (c' & Hc' & Hidx & Hgray).
    rewrite Hc in Hc'. injection Hc' as <-.
    exists i, c. auto.
Qed.

Lemma glyph_index_roundtrip_witness :
  exists i c,
    char_index ASCII_CHARS 128 = Ok i /\
    pixel_glyph ASCII_CHARS 128 = Ok c /\
    index ASCII_CHARS c = Ok i /\
    gray_val ASCII_CHARS c = Ok (i * 255 / 12).
Proof.
  destruct (glyph_index_roundtrip false) as (_ & _ & H).
  apply (H 128). lia.
Defined.

(** C10, the claim as written: the extended set has no duplicate glyph, and
    the glyph at each of its 70 positions is found again at that position. *)
Lemma extended_set_roundtrip_unbroken :
  has_duplicate (glyphs ASCII_CHARS_EXTENDED) = false /\
  below 70 (position_ok ASCII_CHARS_EXTENDED) = true.
Proof. split; vm_compute; reflexivity. Qed.

(** ** Pacing *)

Lemma positive_not_zero (x : float) :
  float_ltb 0%float x = true -> float_is_zero x = false.
Proof.
  unfold float_ltb, float_is_zero.
  replace (FloatOps.Prim2SF 0%float) with (SpecFloat.S754_zero false)
    by (vm_compute; reflexivity).
  destruct (FloatOps.Prim2SF x); simpl; intros H; try reflexivity; discriminate.
Qed.

(** C2 (as amended). The frame delay computed when playback starts is the
    fixed 30 ms when the frame rate is not positive; for a positive rate it
    is the double-precision quotient [1000 / fps] truncated to whole
    milliseconds, which for the whole rates from 1 to 1000 is the integer
    quotient of 1000 by the rate. *)
Theorem frame_delay_truncates :
  (forall fps, float_ltb 0%float fps = false -> frame_delay fps = Ok 30) /\
  (forall fps, float_ltb 0%float fps = true ->
     frame_delay fps = int_of_float (PrimFloat.div (float_of_Z 1000) fps)) /\
  (forall n, 1 <= n <= 1000 -> frame_delay (float_of_Z n) = Ok (1000 / n)).
Proof.
  split; [|split].
  - intros fps H. unfold frame_delay. now rewrite H.
  - intros fps H. unfold frame_delay, float_truediv.
    rewrite H, (positive_not_zero fps H). reflexivity.
  - intros n Hn.
    assert (H : whole_rate_ok n = true).
    { apply (below_spec 1001 whole_rate_ok); [vm_compute; reflexivity | lia]. }
    unfold whole_rate_ok in H.
    destruct (n =? 0) eqn:E; [apply Z.eqb_eq in E; lia|].
    now apply result_eqb_eq.
Qed.

Lemma frame_delay_truncates_witness :
  frame_delay 0%float = Ok 30 /\
  frame_delay (-5)%float = Ok 30 /\
  frame_delay (12.5)%float = int_of_float (PrimFloat.div (float_of_Z 1000) (12.5)%float) /\
  frame_delay (float_of_Z 24) = Ok (1000 / 24).
Proof.
  destruct frame_delay_truncates as (Hneg & Hpos & Hwhole).
  split; [|split; [|split]].
  - apply Hneg. vm_compute. reflexivity.
  - apply Hneg. vm_compute. reflexivity.
  - apply Hpos. vm_compute. reflexivity.
  - apply Hwhole. lia.
Defined.

(** C2, the claim as written: at 30 frames per second the delay is 33 ms,
    and 33 ms is not 1000/30 ms. *)
Lemma frame_delay_not_exact :
  frame_delay 30%float = Ok 33 /\ (33 * 30 =? 1000) = false.
Proof. split; vm_compute; reflexivity. Qed.

(** ** Session construction *)

Lemma derived_height_zero_width (width b : Z) :
  derived_height width 0 b = Raise ZeroDivisionError.
Proof.
  unfold derived_height, int_truediv.
  destruct (b =? 0); [reflexivity|].
  cbn [Z.eqb bind]. unfold float_truediv.
  destruct (b <? 0).
  - replace (float_is_zero (PrimFloat.opp 0%float)) with true
      by (vm_compute; reflexivity).
    reflexivity.
  - replace (float_is_zero 0%float) with true by (vm_compute; reflexivity).
    reflexivity.
Qed.

(** C1 (as amended). Construction fails before playback with [ValueError]
    when the source does not open, and with [ZeroDivisionError] when the
    source width is 0 or when the source height is 0 and the grid height is
    to be derived.  The grid width is not checked: with a grid height given,
    a preview height that computes and a surface size the display accepts,
    the session is constructed with the requested width whatever its sign. *)
Theorem init_failures (c : capture) (fnt : font_metrics) (width : Z)
    (height : option Z) (color extended preview : bool) :
  (opened c = false ->
     init c fnt width height color extended preview = Raise ValueError) /\
  (opened c = true -> cap_width c = 0 ->
     init c fnt width height color extended preview = Raise ZeroDivisionError) /\
  (opened c = true -> cap_height c = 0 -> height = None ->
     init c fnt width height color extended preview = Raise ZeroDivisionError) /\
  (forall h ph,
     opened c = true -> height = Some h ->
     derived_preview_height 240 (cap_width c) (cap_height c) = Ok ph ->
     display_set_mode (width * glyph_width fnt + 20, h * glyph_height fnt + 20)
       = Ok tt ->
     exists s,
       init c fnt width height color extended preview = Ok s /\
       ascii_width s = width /\ ascii_height s = h /\ preview_height s = ph).
Proof.
  split; [|split; [|split]].
  - intros Ho. unfold init. now rewrite Ho.
  - intros Ho Hw. unfold init. rewrite Ho, Hw. cbn [negb].
    destruct height as [h|].
    + cbn [bind]. unfold derived_preview_height, int_truediv. reflexivity.
    + rewrite derived_height_zero_width. reflexivity.
  - intros Ho Hh ->. unfold init. rewrite Ho, Hh. cbn [negb].
    unfold derived_height, int_truediv. reflexivity.
  - intros h ph Ho -> Hp Hd. unfold init. rewrite Ho. cbn [negb bind].
    rewrite Hp. cbn [bind]. rewrite Hd. cbn [bind].
    eexists. repeat split.
Qed.

Lemma init_failures_witness :
  init Reference.unopened_capture Reference.test_font 120 None true false true
    = Raise ValueError /\
  init Reference.zero_width_capture Reference.test_font 120 (Some 45) true false true
    = Raise ZeroDivisionError /\
  init Reference.zero_height_capture Reference.test_font 120 None true false true
    = Raise ZeroDivisionError /\
  exists s,
    init Reference.vga_capture Reference.test_font (-1) (Some 45) true false true = Ok s /\
    ascii_width s = -1 /\ ascii_height s = 45 /\ preview_height s = 180.
Proof.
  split; [|split; [|split]].
  - destruct (init_failures Reference.unopened_capture Reference.test_font
                120 None true false true) as (H & _).
    apply H. reflexivity.
  - destruct (init_failures Reference.zero_width_capture Reference.test_font
                120 (Some 45) true false true) as (_ & H & _).
    apply H; reflexivity.
  - destruct (init_failures Reference.zero_height_capture Reference.test_font
                120 None true false true) as (_ & _ & H & _).
    apply H; reflexivity.
  - destruct (init_failures Reference.vga_capture Reference.test_font
                (-1) (Some 45) true false true) as (_ & _ & _ & H).
    apply H; reflexivity.
Defined.

(** C1, the claim as written: a grid width of 0 on a 640 x 480 source, and a
    source height of 0 with the grid height given, both yield a session. *)
Lemma init_accepts_degenerate_geometry :
  init Reference.vga_capture Reference.test_font 0 None true false true =
    Ok {| ascii_width := 0; ascii_height := 0; use_color := true;
          chars := ASCII_CHARS; show_preview := true; fps := 30%float;
          frame_count := 0; original_width := 640; original_height := 480;
          font := Reference.test_font;
          ascii_screen_width := 0; ascii_screen_height := 0;
          preview_width := 240; preview_height := 180;
          screen_width := 20; screen_height := 20 |} /\
  init Reference.zero_height_capture Reference.test_font 120 (Some 45) true false true =
    Ok {| ascii_width := 120; ascii_height := 45; use_color := true;
          chars := ASCII_CHARS; show_preview := true; fps := 30%float;
          frame_count := 0; original_width := 640; original_height := 0;
          font := Reference.test_font;
          ascii_screen_width := 720; ascii_screen_height := 540;
          preview_width := 240; preview_height := 0;
          screen_width := 740; screen_height := 560 |}.
Proof. split; vm_compute; reflexivity. Qed.

(** ** Strings: appending and splitting *)

Lemma append_nil_r (s : string) : (s ++ EmptyString)%string = s.
Proof. induction s as [|c s IH]; simpl; [reflexivity | now rewrite IH]. Qed.

Lemma append_assoc (s1 s2 s3 : string) :
  ((s1 ++ s2) ++ s3)%string = (s1 ++ (s2 ++ s3))%string.
Proof. induction s1 as [|c s1 IH]; simpl; [reflexivity | now rewrite IH]. Qed.

Lemma glyphs_append (s1 s2 : string) : glyphs (s1 ++ s2) = glyphs s1 ++ glyphs s2.
Proof. induction s1 as [|c s1 IH]; simpl; [reflexivity | now rewrite IH]. Qed.

Lemma length_glyphs (s : string) : List.length (glyphs s) = String.length s.
Proof. induction s as [|c s IH]; simpl; [reflexivity | now rewrite IH]. Qed.

Lemma split_line (s rest : string) :
  ~ In newline (glyphs s) ->
  split newline (s ++ String newline rest) = s :: split newline rest.
Proof.
  induction s as [|c s IH]; intros Hn.
  - cbn [append split]. now rewrite Ascii.eqb_refl.
  - cbn [glyphs list_ascii_of_string] in Hn. cbn [append split].
    destruct (Ascii.eqb c newline) eqn:E.
    + apply Ascii.eqb_eq in E. exfalso. apply Hn. left. exact E.
    + rewrite IH; [reflexivity|]. intros H. apply Hn. now right.
Qed.

Lemma split_join_lines (lines : list string) :
  Forall (fun l => ~ In newline (glyphs l)) lines ->
  split newline (join_lines lines) = lines ++ [EmptyString].
Proof.
  induction 1 as [|l ls Hl _ IH]; [reflexivity|].
  cbn [join_lines]. rewrite split_line by exact Hl. now rewrite IH.
Qed.

(** ** The conversion produces a grid *)

Lemma row_to_ascii_glyphs (ext : bool) (row : list Z) (acc : string) :
  Forall is_byte row ->
  exists line,
    row_to_ascii (select_chars ext) row acc = Ok (acc ++ line)%string /\
    Forall2 (glyph_of (select_chars ext)) row (glyphs line).
Proof.
  intros Hrow. revert acc.
  induction Hrow as [|v row Hv _ IH]; intros acc.
  - exists EmptyString. simpl. rewrite append_nil_r. split; constructor.
  - destruct (index_and_glyph ext v Hv) as (i & c & _ & _ & _ & _ & Hc).
    destruct (IH (acc ++ String c EmptyString)%string) as (line & E & Hl).
    exists (String c line). split.
    + cbn [row_to_ascii]. rewrite Hc. cbn [bind]. rewrite E.
      now rewrite append_assoc.
    + simpl. constructor; assumption.
Qed.

Lemma rows_to_ascii_lines (ext : bool) (gray : gray_image) (acc : string) :
  Forall (Forall is_byte) gray ->
  exists lines,
    rows_to_ascii (select_chars ext) gray acc = Ok (acc ++ join_lines lines)%string /\
    Forall2 (fun row line => Forall2 (glyph_of (select_chars ext)) row (glyphs line))
            gray lines.
Proof.
  intros Hg. revert acc.
  induction Hg as [|row gray Hrow _ IH]; intros acc.
  - exists []. simpl. rewrite append_nil_r. split; constructor.
  - destruct (row_to_ascii_glyphs ext row acc Hrow) as (line & E & Hl).
    destruct (IH ((acc ++ line) ++ String newline EmptyString)%string)
      as (lines & E' & Hls).
    exists (line :: lines). split.
    + cbn [rows_to_ascii]. rewrite E. cbn [bind]. rewrite E'.
      cbn [join_lines]. now rewrite !append_assoc.
    + constructor; assumption.
Qed.

Lemma glyph_of_in_set (ext : bool) (v : Z) (c : ascii) :
  is_byte v -> glyph_of (select_chars ext) v c -> In c (glyphs (select_chars ext)).
Proof.
  intros Hv Hc. unfold glyph_of in Hc.
  destruct (index_and_glyph ext v Hv) as (i & c' & _ & _ & _ & Hg & Hc').
  rewrite Hc in Hc'. injection Hc' as <-.
  now apply get_in_glyphs with (n := Z.to_nat i).
Qed.

Lemma Forall2_length_eq {A B : Type} (R : A -> B -> Prop) (l : list A) (l' : list B) :
  Forall2 R l l' -> List.length l = List.length l'.
Proof. induction 1; simpl; congruence. Qed.

Lemma has_shape_map {A B : Type} (f : A -> B) (h w : Z) (img : list (list A)) :
  has_shape h w img -> has_shape h w (map (map f) img).
Proof.
  intros [Hh Hw]. split.
  - now rewrite length_map.
  - apply Forall_map. eapply Forall_impl; [|exact Hw].
    intros r Hr. simpl. now rewrite length_map.
Qed.

Lemma flat_map {A B : Type} (f : A -> B) (c : A) (img : list (list A)) :
  flat c img -> flat (f c) (map (map f) img).
Proof.
  intros H. unfold flat in *. apply Forall_map.
  eapply Forall_impl; [|exact H].
  intros r Hr. simpl. apply Forall_map.
  eapply Forall_impl; [|exact Hr]. intros a <-. reflexivity.
Qed.

Lemma row_glyphs_in_set (ext : bool) (row : list Z) (line : list ascii) :
  Forall2 (glyph_of (select_chars ext)) row line ->
  Forall is_byte row ->
  Forall (fun c => In c (glyphs (select_chars ext))) line.
Proof.
  induction 1 as [|v c row line Hvc _ IH]; intros Hb; [constructor|].
  inversion Hb as [|? ? Hv Hb']; subst.
  constructor; [eapply glyph_of_in_set; eassumption | now apply IH].
Qed.

Lemma lines_of_gray (ext : bool) (w : Z) (gray : gray_image) (lines : list string) :
  Forall2 (fun row line => Forall2 (glyph_of (select_chars ext)) row (glyphs line))
          gray lines ->
  Forall (fun r => Z.of_nat (List.length r) = w) gray ->
  Forall (Forall is_byte) gray ->
  Forall (fun l => len l = w /\
                   Forall (fun c => In c (glyphs (select_chars ext))) (glyphs l)) lines.
Proof.
  induction 1 as [|row line gray lines Hrl _ IH]; intros Hw Hb; [constructor|].
  inversion Hw as [|? ? Hrow Hw']. inversion Hb as [|? ? Hbrow Hb'].
  constructor; [|apply IH; assumption].
  split.
  - unfold len. rewrite <- length_glyphs, <- (Forall2_length_eq _ _ _ Hrl).
    exact Hrow.
  - eapply row_glyphs_in_set; eassumption.
Qed.

Section ConversionFacts.

Context {P : ImageProvider} {L : ProviderLaws P}.
Variable ext : bool.
Variable self : session.
Hypothesis chars_selected : chars self = select_chars ext.
Hypothesis width_positive : 0 < ascii_width self.
Hypothesis height_positive : 0 < ascii_height self.

Lemma equalized_shape (frame : image) :
  has_shape (ascii_height self) (ascii_width self) (equalized self frame).
Proof.
  unfold equalized, cvtColor_BGR2GRAY.
  apply equalizeHist_shape, has_shape_map, resample_shape; assumption.
Qed.

Lemma conversion_grid (frame : image) :
  image_empty frame = false ->
  exists lines,
    frame_to_ascii self frame =
      Ok (join_lines lines,
          if use_color self
          then Some (resample frame (ascii_width self) (ascii_height self))
          else None) /\
    Forall2 (fun row line => Forall2 (glyph_of (chars self)) row (glyphs line))
            (equalized self frame) lines.
Proof.
  intros Hne. unfold frame_to_ascii, cv2_resize.
  destruct (ascii_width self <=? 0) eqn:Ew; [apply Z.leb_le in Ew; lia|].
  destruct (ascii_height self <=? 0) eqn:Eh; [apply Z.leb_le in Eh; lia|].
  rewrite Hne. cbn [orb bind]. rewrite chars_selected.
  destruct (rows_to_ascii_lines ext (equalized self frame) EmptyString
              (equalizeHist_byte _)) as (lines & E & Hl).
  exists lines. split; [|exact Hl].
  unfold equalized in E. rewrite E. reflexivity.
Qed.

Lemma grid_rows (frame : image) (lines : list string) :
  Forall2 (fun row line => Forall2 (glyph_of (chars self)) row (glyphs line))
          (equalized self frame) lines ->
  Z.of_nat (List.length lines) = ascii_height self /\
  Forall (fun l => len l = ascii_width self /\
                   Forall (fun c => In c (glyphs (chars self))) (glyphs l)) lines.
Proof.
  intros H.
  destruct (equalized_shape frame) as [Hh Hw].
  pose proof (equalizeHist_byte
                (cvtColor_BGR2GRAY
                   (resample frame (ascii_width self) (ascii_height self)))) as Hb.
  fold (equalized self frame) in Hb.
  split; [rewrite <- (Forall2_length_eq _ _ _ H); exact Hh|].
  rewrite chars_selected in *.
  eapply lines_of_gray; eassumption.
Qed.

Lemma grid_split (lines : list string) :
  Forall (fun l => len l = ascii_width self /\
                   Forall (fun c => In c (glyphs (chars self))) (glyphs l)) lines ->
  split newline (join_lines lines) = lines ++ [EmptyString].
Proof.
  intros H. apply split_join_lines.
  eapply Forall_impl; [|exact H].
  intros l [_ Hl] Hin.
  rewrite Forall_forall in Hl. specialize (Hl _ Hin).
  rewrite chars_selected in Hl. now apply (newline_not_glyph ext).
Qed.

End ConversionFacts.

(** ** The reference provider satisfies the laws *)

Lemma range_length (n : Z) : 0 <= n -> Z.of_nat (List.length (Reference.range n)) = n.
Proof.
  intros Hn. unfold Reference.range. rewrite length_map, length_seq. lia.
Qed.

Lemma nth_flat {A : Type} (c : A) (l : list A) (n : nat) :
  Forall (eq c) l -> nth n l c = c.
Proof.
  intros H. revert n. induction H as [|a l' Ha _ IH]; intros [|n]; simpl; auto.
Qed.

Lemma to_byte_is_byte (v : Z) : is_byte (Reference.to_byte v).
Proof. unfold is_byte, Reference.to_byte. lia. Qed.

Lemma lowest_is_byte (l : list Z) :
  Forall is_byte l -> is_byte (fold_right Z.min 255 l).
Proof.
  induction 1 as [|v l' Hv _ IH]; simpl; unfold is_byte in *; lia.
Qed.

Lemma lowest_of_zeros (l : list Z) :
  Forall (eq 0) l -> l <> [] -> fold_right Z.min 255 l = 0.
Proof.
  induction 1 as [|v l' Hv Hl IH]; intros Hne; [congruence|].
  subst v. simpl. destruct l' as [|u l']; [reflexivity|].
  rewrite IH by discriminate. reflexivity.
Qed.

Lemma count_of_zeros (l : list Z) :
  Forall (eq 0) l ->
  Reference.count (Z.eqb (fold_right Z.min 255 l)) l = Z.of_nat (List.length l).
Proof.
  intros H. unfold Reference.count.
  destruct l as [|u l']; [reflexivity|].
  rewrite (lowest_of_zeros _ H) by discriminate.
  f_equal. clear -H. induction H as [|v l Hv _ IH]; [reflexivity|].
  subst v. simpl. now rewrite IH.
Qed.

Lemma samples_of_flat (g : gray_image) :
  flat 0 g -> Forall (eq 0) (map Reference.to_byte (List.concat g)).
Proof.
  intros H. apply Forall_map, Forall_concat.
  eapply Forall_impl; [|exact H].
  intros r Hr. eapply Forall_impl; [|exact Hr]. intros v <-. reflexivity.
Qed.

Lemma reference_laws : ProviderLaws Reference.provider.
Proof.
  constructor; cbn [resample luma equalizeHist Reference.provider].
  - intros img w h Hw Hh. unfold Reference.nearest_resample. split.
    + rewrite length_map. apply range_length. lia.
    + apply Forall_map, Forall_forall. intros y _.
      rewrite length_map. apply range_length. lia.
  - intros g h w Hs. unfold Reference.equalize_hist.
    destruct (_ =? _); now apply has_shape_map.
  - intros g. unfold Reference.equalize_hist.
    destruct (_ =? _).
    + apply Forall_map, Forall_forall. intros r _.
      apply Forall_map, Forall_forall. intros v _.
      apply lowest_is_byte, Forall_map, Forall_forall.
      intros u _. apply to_byte_is_byte.
    + apply Forall_map, Forall_forall. intros r _.
      apply Forall_map, Forall_forall. intros v _.
      apply to_byte_is_byte.
  - intros img w h Hf. unfold Reference.nearest_resample, flat.
    apply Forall_map, Forall_forall. intros y _.
    apply Forall_map, Forall_forall. intros x _.
    symmetry. apply nth_flat.
    set (k := Z.to_nat (y * _ / h)).
    destruct (nth_in_or_default k img []) as [Hin | ->]; [|constructor].
    unfold flat in Hf. rewrite Forall_forall in Hf. now apply Hf.
  - reflexivity.
  - intros g Hf. pose proof (samples_of_flat g Hf) as Hz.
    unfold Reference.equalize_hist.
    rewrite (count_of_zeros _ Hz), Z.eqb_refl.
    unfold flat in *. apply Forall_map.
    apply Forall_forall. intros r Hr.
    apply Forall_map, Forall_forall. intros v Hv.
    symmetry. apply lowest_of_zeros; [exact Hz|].
    intros E. apply (f_equal (@List.length Z)) in E.
    rewrite length_map in E. simpl in E.
    assert (Hin : In v (List.concat g)) by (apply in_concat; eauto).
    destruct (List.concat g); [contradiction | discriminate].
Qed.

(** ** Grid dimensions and the black frame *)

(** C7. For every non-empty frame the conversion returns a text of exactly
    [ascii_height] lines of exactly [ascii_width] glyphs each (followed by
    the empty piece after the last newline), and in color mode a color array
    of the same shape, whatever the samples of the frame are. *)
Theorem glyph_grid_dimensions {P : ImageProvider} {L : ProviderLaws P}
    (ext : bool) (self : session) (frame : image) :
  chars self = select_chars ext ->
  0 < ascii_width self ->
  0 < ascii_height self ->
  image_empty frame = false ->
  exists ascii_text color_array rows,
    frame_to_ascii self frame = Ok (ascii_text, color_array) /\
    split newline ascii_text = rows ++ [EmptyString] /\
    Z.of_nat (List.length rows) = ascii_height self /\
    Forall (fun row => len row = ascii_width self) rows /\
    match color_array with
    | Some colors =>
        use_color self = true /\
        has_shape (ascii_height self) (ascii_width self) colors
    | None => use_color self = false
    end.
Proof.
  intros Hc Hw Hh Hne.
  destruct (conversion_grid ext self Hc Hw Hh frame Hne) as (rows & E & Hg).
  destruct (grid_rows ext self Hc Hw Hh frame rows Hg) as (Hn & Hrows).
  eexists _, _, rows. split; [exact E|].
  split; [exact (grid_split ext self Hc rows Hrows)|].
  split; [exact Hn|].
  split.
  - eapply Forall_impl; [|exact Hrows]. now intros row [Hrow _].
  - destruct (use_color self); [|reflexivity].
    split; [reflexivity|]. now apply resample_shape.
Qed.

Lemma glyph_grid_dimensions_witness :
  exists ascii_text color_array rows,
    frame_to_ascii (P := Reference.provider) (Reference.test_session true)
      Reference.half_frame = Ok (ascii_text, color_array) /\
    split newline ascii_text = rows ++ [EmptyString] /\
    Z.of_nat (List.length rows) = 2 /\
    Forall (fun row => len row = 4) rows.
Proof.
  destruct (glyph_grid_dimensions (L := reference_laws) false
              (Reference.test_session true) Reference.half_frame)
    as (t & c & rows & E & Hs & Hn & Hr & _);
    [reflexivity | reflexivity | reflexivity | reflexivity |].
  exists t, c, rows. auto.
Defined.

Lemma darkest_glyph (ext : bool) (c : ascii) :
  glyph_of (select_chars ext) 0 c -> getitem (select_chars ext) 0 = Ok c.
Proof.
  unfold glyph_of, pixel_glyph. intros H.
  replace (char_index (select_chars ext) 0) with (Ok (A := Z) 0) in H
    by (destruct ext; vm_compute; reflexivity).
  exact H.
Qed.

Lemma flat_rows_darkest (ext : bool) (gray : gray_image) (lines : list string) :
  Forall2 (fun row line => Forall2 (glyph_of (select_chars ext)) row (glyphs line))
          gray lines ->
  flat 0 gray ->
  Forall (fun l => Forall (fun c => getitem (select_chars ext) 0 = Ok c) (glyphs l))
         lines.
Proof.
  induction 1 as [|row line gray lines Hrl _ IH]; intros Hf; [constructor|].
  inversion Hf as [|? ? Hrow Hf']; subst.
  constructor; [|now apply IH].
  clear IH Hf Hf'. induction Hrl as [|v c row line' Hvc _ IH]; [constructor|].
  inversion Hrow as [|? ? Hv Hrow']; subst.
  constructor; [now apply darkest_glyph | now apply IH].
Qed.

(** C8. A non-empty all-zero frame is converted to a grid in which every
    cell holds [self.chars[0]], the darkest glyph: the black frame stays
    black through resampling, its luminance is 0, equalization leaves the
    all-zero channel as it is, and luminance 0 is mapped to index 0. *)
Theorem black_frame_darkest {P : ImageProvider} {L : ProviderLaws P}
    (ext : bool) (self : session) (frame : image) :
  chars self = select_chars ext ->
  0 < ascii_width self ->
  0 < ascii_height self ->
  image_empty frame = false ->
  flat black frame ->
  exists ascii_text color_array rows,
    frame_to_ascii self frame = Ok (ascii_text, color_array) /\
    split newline ascii_text = rows ++ [EmptyString] /\
    Z.of_nat (List.length rows) = ascii_height self /\
    Forall (fun row =>
              len row = ascii_width self /\
              Forall (fun c => getitem (chars self) 0 = Ok c) (glyphs row)) rows.
Proof.
  intros Hc Hw Hh Hne Hblack.
  destruct (conversion_grid ext self Hc Hw Hh frame Hne) as (rows & E & Hg).
  destruct (grid_rows ext self Hc Hw Hh frame rows Hg) as (Hn & Hrows).
  eexists _, _, rows. split; [exact E|].
  split; [exact (grid_split ext self Hc rows Hrows)|].
  split; [exact Hn|].
  assert (Hz : flat 0 (equalized self frame)).
  { unfold equalized, cvtColor_BGR2GRAY.
    apply equalizeHist_zero. rewrite <- luma_black.
    apply flat_map. now apply resample_black. }
  rewrite Hc in Hg |- *.
  pose proof (flat_rows_darkest ext _ _ Hg Hz) as Hd.
  clear -Hrows Hd. induction Hrows as [|row rows [Hlen _] _ IH]; [constructor|].
  inversion Hd; subst. constructor; [split; assumption | now apply IH].
Qed.

Lemma black_frame_darkest_witness :
  exists ascii_text color_array rows,
    frame_to_ascii (P := Reference.provider) (Reference.test_session false)
      Reference.black_frame = Ok (ascii_text, color_array) /\
    split newline ascii_text = rows ++ [EmptyString] /\
    Forall (fun row => Forall (fun c => getitem ASCII_CHARS 0 = Ok c) (glyphs row)) rows.
Proof.
  destruct (black_frame_darkest (L := reference_laws) false
              (Reference.test_session false) Reference.black_frame)
    as (t & c & rows & E & Hs & _ & Hr);
    [reflexivity | reflexivity | reflexivity | reflexivity | |].
  - repeat constructor.
  - exists t, c, rows. repeat split; auto.
    eapply Forall_impl; [|exact Hr]. now intros row [_ H].
Defined.

(** ** Drawing *)

Lemma split_not_nil (sep : ascii) (s : string) : split sep s <> [].
Proof.
  destruct s as [|c s]; simpl; [discriminate|].
  destruct (Ascii.eqb c sep); [discriminate|].
  destruct (split sep s); discriminate.
Qed.

Lemma split_glyphs (s : string) :
  List.concat (map glyphs (split newline s)) = filter not_newline (glyphs s).
Proof.
  induction s as [|c s IH]; [reflexivity|].
  cbn [split glyphs list_ascii_of_string filter]. fold (glyphs s).
  unfold not_newline at 1.
  destruct (Ascii.eqb c newline); cbn [negb].
  - cbn [map List.concat glyphs list_ascii_of_string app]. exact IH.
  - pose proof (split_not_nil newline s) as Hne.
    destruct (split newline s) as [|l ls]; [congruence|].
    cbn [map List.concat] in *. cbn [glyphs list_ascii_of_string].
    fold (glyphs l). rewrite <- IH. reflexivity.
Qed.

Lemma split_members (Q : ascii -> Prop) (s : string) :
  Forall (fun c => c = newline \/ Q c) (glyphs s) ->
  Forall (fun l => Forall Q (glyphs l)) (split newline s).
Proof.
  induction s as [|c s IH]; intros H.
  - repeat constructor.
  - cbn [glyphs list_ascii_of_string] in H. fold (glyphs s) in H.
    inversion H as [|? ? Hc Hs]; subst. specialize (IH Hs).
    cbn [split]. destruct (Ascii.eqb c newline) eqn:E.
    + constructor; [constructor | exact IH].
    + pose proof (split_not_nil newline s) as Hne.
      destruct (split newline s) as [|l ls]; [congruence|].
      inversion IH; subst. constructor; [|assumption].
      cbn [glyphs list_ascii_of_string]. constructor; [|assumption].
      destruct Hc as [->|Hc]; [|exact Hc].
      rewrite Ascii.eqb_refl in E. discriminate.
Qed.

Lemma draw_line_cells (self : session) (ca : option image) (r : nat)
    (line : string) (k : nat) (x y : Z) :
  (forall j c, nth_error (glyphs line) j = Some c ->
     exists col, cell_color self ca r (k + j) c = Ok col) ->
  exists blits,
    draw_line self ca r line k x y = Ok blits /\
    map glyph blits = glyphs line /\
    Forall (colored_by self ca) blits.
Proof.
  revert k x. induction line as [|c line IH]; intros k x Hcells.
  - exists []. repeat split; constructor.
  - destruct (Hcells O c eq_refl) as (col & Hcol).
    rewrite Nat.add_0_r in Hcol.
    destruct (IH (S k) (x + glyph_width (font self))) as (rest & E & Hg & Hall).
    { intros j d Hj. rewrite Nat.add_succ_l, <- Nat.add_succ_r.
      apply Hcells. exact Hj. }
    eexists. cbn [draw_line]. rewrite Hcol. cbn [bind]. rewrite E. cbn [bind].
    split; [reflexivity|]. split.
    + cbn [map glyph glyphs list_ascii_of_string]. now rewrite Hg.
    + constructor; [|exact Hall]. now exists r, k.
Qed.

Lemma draw_lines_cells (self : session) (ca : option image)
    (lines : list string) (r : nat) (y : Z) :
  (forall i line j c,
     nth_error lines i = Some line -> nth_error (glyphs line) j = Some c ->
     exists col, cell_color self ca (r + i) j c = Ok col) ->
  exists blits,
    draw_lines self ca lines r y = Ok blits /\
    map glyph blits = List.concat (map glyphs lines) /\
    Forall (colored_by self ca) blits.
Proof.
  revert r y. induction lines as [|line lines IH]; intros r y Hcells.
  - exists []. repeat split; constructor.
  - assert (Hrest : forall y',
              exists blits,
                draw_lines self ca lines (S r) y' = Ok blits /\
                map glyph blits = List.concat (map glyphs lines) /\
                Forall (colored_by self ca) blits).
    { intros y'. apply IH. intros i l j c Hi Hj.
      rewrite Nat.add_succ_l, <- Nat.add_succ_r.
      now apply (Hcells (S i) l j c). }
    cbn [draw_lines]. destruct line as [|c line].
    + destruct (Hrest y) as (blits & E & Hg & Hall).
      exists blits. now repeat split.
    + destruct (draw_line_cells self ca r (String c line) O 10 y)
        as (here & E & Hg & Hall).
      { intros j d Hj. cbn [Nat.add].
        specialize (Hcells O (String c line) j d eq_refl Hj).
        now rewrite Nat.add_0_r in Hcells. }
      destruct (Hrest (y + glyph_height (font self))) as (rest & E' & Hg' & Hall').
      exists (here ++ rest). rewrite E. cbn [bind]. rewrite E'. cbn [bind].
      split; [reflexivity|]. split.
      * rewrite map_app, Hg, Hg'. reflexivity.
      * apply Forall_app. now split.
Qed.

Lemma drawable_text (chars ascii_text : string) :
  forallb (drawable chars) (glyphs ascii_text) = true ->
  Forall (fun c => c = newline \/ In c (glyphs chars)) (glyphs ascii_text).
Proof.
  intros H. apply Forall_forall. intros c Hc.
  rewrite forallb_forall in H. specialize (H c Hc).
  apply orb_true_iff in H. destruct H as [H|H].
  - left. now apply Ascii.eqb_eq.
  - right. apply existsb_exists in H. destruct H as (d & Hd & E).
    apply Ascii.eqb_eq in E. now subst.
Qed.

Lemma gray_cell (ext : bool) (self : session) (ca : option image)
    (r j : nat) (c : ascii) :
  chars self = select_chars ext ->
  use_color self = false ->
  In c (glyphs (chars self)) ->
  exists i,
    index (chars self) c = Ok i /\
    cell_color self ca r j c =
      Ok (i * 255 / len (chars self), i * 255 / len (chars self),
          i * 255 / len (chars self)).
Proof.
  intros Hc Hu Hin. rewrite Hc in *.
  destruct (gray_val_exact ext c Hin) as (i & _ & Hi & Hg).
  exists i. split; [exact Hi|].
  unfold cell_color. rewrite Hu, Hc, Hg. reflexivity.
Qed.

(** C9. In no-color mode every glyph of the text is drawn, in order, and
    the color of each is the gray triple [(g, g, g)] with
    [g = floor(i * 255 / n)], where [i] is the position of the glyph in the
    active set of [n] glyphs. *)
Theorem no_color_cells_gray (ext : bool) (self : session) (ascii_text : string)
    (color_array : option image) :
  chars self = select_chars ext ->
  use_color self = false ->
  Forall (fun c => c = newline \/ In c (glyphs (chars self))) (glyphs ascii_text) ->
  exists blits,
    draw_ascii_frame self ascii_text color_array = Ok blits /\
    map glyph blits = filter not_newline (glyphs ascii_text) /\
    Forall (fun b =>
              exists i,
                index (chars self) (glyph b) = Ok i /\
                color b = (i * 255 / len (chars self),
                           i * 255 / len (chars self),
                           i * 255 / len (chars self))) blits.
Proof.
  intros Hc Hu Htext.
  pose proof (split_members (fun c => In c (glyphs (chars self))) _ Htext) as Hm.
  destruct (draw_lines_cells self color_array (split newline ascii_text) O 10)
    as (blits & E & Hg & Hall).
  { intros i line j c Hi Hj.
    rewrite Forall_forall in Hm.
    pose proof (Hm line (nth_error_In _ _ Hi)) as Hline.
    rewrite Forall_forall in Hline.
    destruct (gray_cell ext self color_array (0 + i) j c Hc Hu
                (Hline c (nth_error_In _ _ Hj))) as (k & _ & Hk).
    eauto. }
  rewrite split_glyphs in Hg.
  exists blits. split; [exact E|]. split; [exact Hg|].
  apply Forall_forall. intros b Hb.
  assert (Hin : In (glyph b) (glyphs (chars self))).
  { assert (Hf : In (glyph b) (filter not_newline (glyphs ascii_text)))
      by (rewrite <- Hg; now apply in_map).
    apply filter_In in Hf. destruct Hf as [Hf Hnl].
    rewrite Forall_forall in Htext.
    destruct (Htext _ Hf) as [Heq|Hok]; [|exact Hok].
    unfold not_newline in Hnl. rewrite Heq, Ascii.eqb_refl in Hnl. discriminate. }
  rewrite Forall_forall in Hall.
  destruct (Hall b Hb) as (r & j & Hcol).
  destruct (gray_cell ext self color_array r j (glyph b) Hc Hu Hin) as (i & Hi & Hgray).
  exists i. split; [exact Hi|]. congruence.
Qed.

Lemma no_color_cells_gray_witness :
  exists blits,
    draw_ascii_frame (Reference.test_session false) Reference.half_text None = Ok blits /\
    map glyph blits = filter not_newline (glyphs Reference.half_text) /\
    Forall (fun b =>
              exists i,
                index ASCII_CHARS (glyph b) = Ok i /\
                color b = (i * 255 / 12, i * 255 / 12, i * 255 / 12)) blits.
Proof.
  apply (no_color_cells_gray false (Reference.test_session false)
           Reference.half_text None); [reflexivity | reflexivity |].
  apply drawable_text. vm_compute. reflexivity.
Defined.

(** ** A well-configured session renders every frame *)

Lemma color_cell (self : session) (colors : image) (h w : Z) (i j : nat) (c : ascii) :
  use_color self = true ->
  has_shape h w colors ->
  Z.of_nat i < h -> Z.of_nat j < w ->
  exists col, cell_color self (Some colors) i j c = Ok col.
Proof.
  intros Hu [Hh Hw] Hi Hj. unfold cell_color, color_at. rewrite Hu.
  destruct (nth_error colors i) as [row|] eqn:Er.
  - rewrite Forall_forall in Hw. pose proof (Hw row (nth_error_In _ _ Er)) as Hlen.
    destruct (nth_error row j) as [[[b g] r]|] eqn:Ep.
    + eexists. reflexivity.
    + apply nth_error_None in Ep. lia.
  - apply nth_error_None in Er. lia.
Qed.

Lemma nth_error_rows {A : Type} (rows : list A) (last : A) (i : nat) (x : A) :
  nth_error (rows ++ [last]) i = Some x ->
  (nth_error rows i = Some x /\ (i < List.length rows)%nat) \/ x = last.
Proof.
  intros H. destruct (Nat.lt_ge_cases i (List.length rows)) as [Hlt|Hge].
  - left. rewrite nth_error_app1 in H by exact Hlt. auto.
  - right. rewrite nth_error_app2 in H by exact Hge.
    destruct (i - List.length rows)%nat as [|n]; simpl in H.
    + now injection H.
    + destruct n; discriminate.
Qed.

Section Rendering.

Context {P : ImageProvider} {L : ProviderLaws P}.
Variable ext : bool.
Variable self : session.
Hypothesis chars_selected : chars self = select_chars ext.
Hypothesis width_positive : 0 < ascii_width self.
Hypothesis height_positive : 0 < ascii_height self.
Hypothesis preview_width_positive : 0 < preview_width self.
Hypothesis preview_height_positive : 0 < preview_height self.

Lemma draw_preview_ok (frame : image) :
  image_empty frame = false -> draw_preview self frame = Ok tt.
Proof.
  intros Hne. unfold draw_preview, cv2_resize.
  destruct (preview_width self <=? 0) eqn:Ew; [apply Z.leb_le in Ew; lia|].
  destruct (preview_height self <=? 0) eqn:Eh; [apply Z.leb_le in Eh; lia|].
  now rewrite Hne.
Qed.

Lemma render_ok (preview : bool) (frame : image) :
  image_empty frame = false ->
  exists blits, render self preview frame = Ok blits.
Proof.
  intros Hne.
  destruct (conversion_grid ext self chars_selected width_positive height_positive
              frame Hne) as (rows & E & Hg).
  destruct (grid_rows ext self chars_selected width_positive height_positive
              frame rows Hg) as (Hn & Hrows).
  pose proof (grid_split ext self chars_selected rows Hrows) as Hsplit.
  set (colors := if use_color self
                 then Some (resample frame (ascii_width self) (ascii_height self))
                 else None) in *.
  destruct (draw_lines_cells self colors (rows ++ [EmptyString]) O 10)
    as (blits & Ed & _).
  { intros i line j c Hi Hj. cbn [Nat.add].
    destruct (nth_error_rows _ _ _ _ Hi) as [[Hrow Hlt]| ->];
      [|destruct j; discriminate].
    rewrite Forall_forall in Hrows.
    destruct (Hrows line (nth_error_In _ _ Hrow)) as [Hlen Hset].
    assert (Hjw : Z.of_nat j < ascii_width self).
    { rewrite <- Hlen. unfold len. rewrite <- length_glyphs.
      apply Nat2Z.inj_lt. apply nth_error_Some. congruence. }
    subst colors. destruct (use_color self) eqn:Hu.
    - eapply color_cell; [exact Hu | | | exact Hjw].
      + apply resample_shape; assumption.
      + lia.
    - rewrite Forall_forall in Hset.
      destruct (gray_cell ext self None i j c chars_selected Hu
                  (Hset c (nth_error_In _ _ Hj))) as (k & _ & Hk).
      eauto. }
  exists blits. unfold render. rewrite E. cbn [bind].
  unfold draw_ascii_frame. rewrite Hsplit, Ed. cbn [bind].
  destruct preview; [rewrite (draw_preview_ok frame Hne)|]; reflexivity.
Qed.

End Rendering.

(** ** The playback loop *)

Lemma handle_event_frames (st : player) (ev : event) :
  frames (cap (handle_event st ev)) = frames (cap st).
Proof. destruct ev as [|[]|]; reflexivity. Qed.

Lemma handle_events_frames (events : list event) (st : player) :
  frames (cap (handle_events st events)) = frames (cap st).
Proof.
  unfold handle_events. revert st.
  induction events as [|ev events IH]; intros st; [reflexivity|].
  simpl. rewrite IH. apply handle_event_frames.
Qed.

Lemma handle_events_rewound (events : list event) (st : player) :
  pos (cap st) = O -> pos (cap (handle_events st events)) = O.
Proof.
  unfold handle_events. revert st.
  induction events as [|ev events IH]; intros st H; [exact H|].
  simpl. apply IH. destruct ev as [|[]|]; simpl; auto.
Qed.

Lemma handle_events_stopped (events : list event) (st : player) :
  running st = false -> running (handle_events st events) = false.
Proof.
  unfold handle_events. revert st.
  induction events as [|ev events IH]; intros st H; [exact H|].
  simpl. apply IH. destruct ev as [|[]|]; simpl; auto.
Qed.

Lemma handle_events_quit (events : list event) (st : player) :
  existsb is_quit events = true -> running (handle_events st events) = false.
Proof.
  unfold handle_events. revert st.
  induction events as [|ev events IH]; intros st H; [discriminate|].
  simpl in H. apply orb_true_iff in H. destruct H as [H|H].
  - simpl. apply (handle_events_stopped events).
    destruct ev as [|[]|]; simpl in *; auto; discriminate.
  - simpl. now apply IH.
Qed.

Lemma quit_key_is_quit (events : list event) :
  existsb is_quit_key events = true -> existsb is_quit events = true.
Proof.
  intros H. apply existsb_exists in H. destruct H as (ev & Hin & Hk).
  apply existsb_exists. exists ev. split; [exact Hin|].
  destruct ev as [|[]|]; simpl in *; auto.
Qed.

Section Loop.

Context {P : ImageProvider}.
Variable self : session.

Lemma play_loop_stopped (polls : list (list event)) (st : player) :
  running st = false -> play_loop self polls st = ([], Finished st).
Proof. intros H. destruct polls; simpl; now rewrite H. Qed.

(** After a rewind the first frame read, if any, is frame 0. *)
Lemma first_read_after_rewind (polls : list (list event)) (st : player) :
  pos (cap st) = O ->
  hd_error (frames_read (fst (play_loop self polls st))) = None \/
  hd_error (frames_read (fst (play_loop self polls st))) = Some O.
Proof.
  revert st. induction polls as [|events polls IH]; intros st Hpos.
  - left. simpl. destruct (negb (running st)); reflexivity.
  - cbn [play_loop]. destruct (negb (running st)); [now left|].
    pose proof (handle_events_rewound events st Hpos) as Hpos'.
    unfold cycle.
    destruct (negb (paused (handle_events st events))).
    + unfold cap_read. rewrite Hpos'.
      destruct (nth_error (frames (cap (handle_events st events))) 0) as [frame|].
      * destruct (render self (preview_on (handle_events st events)) frame).
        -- destruct (play_loop self polls _) as [effs out]. now right.
        -- now right.
      * specialize (IH {| cap := cap_set_pos (cap (handle_events st events)) 0;
                          running := running (handle_events st events);
                          paused := paused (handle_events st events);
                          preview_on := preview_on (handle_events st events) |}
                       eq_refl).
        destruct (play_loop self polls _) as [effs out]. exact IH.
    + specialize (IH (handle_events st events) Hpos').
      destruct (play_loop self polls _) as [effs out]. exact IH.
Qed.

End Loop.

Lemma playing_inv (st : player) :
  state_of st = Playing -> running st = true /\ paused st = false.
Proof.
  unfold state_of. destruct (running st), (paused st); simpl; intros H;
    try discriminate; auto.
Qed.

(** C5. When the read at the end of the stream fails while the player is
    playing, the turn ends with the cursor back on frame 0 and the player
    still playing (not stopped, nothing released); whatever is polled
    afterwards, the first frame read after that is frame 0, and with no
    further input the very next turn reads it. *)
Theorem end_of_stream_loops {P : ImageProvider} (self : session)
    (events : list event) (st : player) :
  state_of (handle_events st events) = Playing ->
  nth_error (frames (cap (handle_events st events)))
            (pos (cap (handle_events st events))) = None ->
  exists st',
    cycle self events st = ([], Ok st') /\
    state_of st' = Playing /\
    pos (cap st') = O /\
    frames (cap st') = frames (cap st) /\
    (forall polls,
       hd_error (frames_read (fst (play_loop self polls st'))) = None \/
       hd_error (frames_read (fst (play_loop self polls st'))) = Some O) /\
    (forall frame polls,
       nth_error (frames (cap st)) 0 = Some frame ->
       exists effs, fst (play_loop self ([] :: polls) st') = FrameRead 0 :: effs).
Proof.
  intros Hplaying Heos.
  destruct (playing_inv _ Hplaying) as [Hrun Hpause].
  pose proof (handle_events_frames events st) as Hframes.
  set (st1 := handle_events st events) in *.
  exists {| cap := cap_set_pos (cap st1) 0; running := running st1;
            paused := paused st1; preview_on := preview_on st1 |}.
  split; [|split; [|split; [|split; [|split]]]].
  - unfold cycle. fold st1. rewrite Hpause. cbn [negb].
    unfold cap_read. rewrite Heos. reflexivity.
  - unfold state_of. cbn [running paused]. now rewrite Hrun, Hpause.
  - reflexivity.
  - exact Hframes.
  - intros polls. now apply first_read_after_rewind.
  - intros frame polls H0. rewrite <- Hframes in H0.
    cbn [play_loop running]. rewrite Hrun. cbn [negb].
    unfold cycle, handle_events. cbn [fold_left paused cap].
    rewrite Hpause. cbn [negb]. unfold cap_read.
    cbn [cap_set_pos pos frames]. rewrite H0.
    destruct (render self _ frame).
    + destruct (play_loop self polls _) as [effs out]. eexists. reflexivity.
    + eexists. reflexivity.
Qed.

Lemma end_of_stream_loops_witness :
  exists st',
    cycle (P := Reference.provider) (Reference.test_session false) []
      {| cap := cap_set_pos Reference.test_capture 2; running := true;
         paused := false; preview_on := true |} = ([], Ok st') /\
    state_of st' = Playing /\
    pos (cap st') = O.
Proof.
  destruct (end_of_stream_loops (P := Reference.provider)
              (Reference.test_session false) []
              {| cap := cap_set_pos Reference.test_capture 2; running := true;
                 paused := false; preview_on := true |})
    as (st' & E & Hs & Hp & _); [reflexivity | reflexivity |].
  exists st'. auto.
Defined.

(** ** Quitting *)

Lemma no_cleanup_filter (effs : list effect) :
  Forall (fun e => is_cleanup e = false) effs ->
  filter is_release effs = [] /\ filter is_teardown effs = [].
Proof.
  induction 1 as [|e effs He _ [IH1 IH2]]; [split; reflexivity|].
  unfold is_cleanup in He. apply orb_false_iff in He. destruct He as [H1 H2].
  simpl. now rewrite H1, H2.
Qed.

Section Quit.

Context {P : ImageProvider} {L : ProviderLaws P}.
Variable ext : bool.
Variable self : session.
Hypothesis chars_selected : chars self = select_chars ext.
Hypothesis width_positive : 0 < ascii_width self.
Hypothesis height_positive : 0 < ascii_height self.
Hypothesis preview_width_positive : 0 < preview_width self.
Hypothesis preview_height_positive : 0 < preview_height self.

(** A turn of a well-configured player does not raise and does not release
    anything. *)
Lemma cycle_ok (events : list event) (st : player) :
  Forall (fun f => image_empty f = false) (frames (cap st)) ->
  exists effs st',
    cycle self events st = (effs, Ok st') /\
    frames (cap st') = frames (cap st) /\
    running st' = running (handle_events st events) /\
    Forall (fun e => is_cleanup e = false) effs.
Proof.
  intros Hne.
  pose proof (handle_events_frames events st) as Hframes.
  unfold cycle. set (st1 := handle_events st events) in *.
  destruct (negb (paused st1)).
  - unfold cap_read.
    destruct (nth_error (frames (cap st1)) (pos (cap st1))) as [frame|] eqn:Er.
    + assert (Hf : image_empty frame = false).
      { rewrite Forall_forall in Hne. apply Hne.
        rewrite <- Hframes. eapply nth_error_In. exact Er. }
      destruct (render_ok ext self chars_selected width_positive height_positive
                  preview_width_positive preview_height_positive
                  (preview_on st1) frame Hf) as (blits & Eb).
      rewrite Eb. eexists _, _. split; [reflexivity|].
      repeat split; auto; repeat constructor.
    + eexists _, _. split; [reflexivity|]. repeat split; auto.
  - eexists _, _. split; [reflexivity|]. repeat split; auto; repeat constructor.
Qed.

(** Once a quit key is among the polled events the loop ends. *)
Lemma play_loop_quits (polls : list (list event)) (st : player) :
  Forall (fun f => image_empty f = false) (frames (cap st)) ->
  existsb (existsb is_quit_key) polls = true ->
  exists effs st',
    play_loop self polls st = (effs, Finished st') /\
    running st' = false /\
    Forall (fun e => is_cleanup e = false) effs.
Proof.
  revert st. induction polls as [|events polls IH]; intros st Hne Hq;
    [discriminate|].
  destruct (running st) eqn:Hrun.
  2:{ exists [], st. rewrite play_loop_stopped by exact Hrun. auto. }
  cbn [play_loop]. rewrite Hrun. cbn [negb].
  destruct (cycle_ok events st Hne) as (effs & st1 & E & Hf & Hr & Hc).
  rewrite E.
  cbn [existsb] in Hq. apply orb_true_iff in Hq. destruct Hq as [Hq|Hq].
  - rewrite (handle_events_quit events st (quit_key_is_quit _ Hq)) in Hr.
    rewrite play_loop_stopped by exact Hr.
    exists (effs ++ []), st1. rewrite app_nil_r. auto.
  - destruct (IH st1) as (effs' & st' & E' & Hr' & Hc'); [now rewrite Hf | exact Hq |].
    rewrite E'. exists (effs ++ effs'), st'.
    repeat split; auto. apply Forall_app. now split.
Qed.

End Quit.

(** ** The player on concrete inputs *)

(** The default grid height of a 640 x 480 source at grid width 120. *)
Example default_height_vga : derived_height 120 640 480 = Ok 45.
Proof. vm_compute. reflexivity. Qed.

Example half_frame_text :
  frame_to_ascii (P := Reference.provider) (Reference.test_session false)
    Reference.half_frame = Ok (Reference.half_text, None).
Proof. vm_compute. reflexivity. Qed.

(** Two frames, then the end of the stream, then the first frame again. *)
Example looping_reads :
  frames_read
    (fst (play (P := Reference.provider) (Reference.test_session false)
            Reference.test_capture [[]; []; []; []; [KEYDOWN K_ESCAPE]]))
  = [0; 1; 0; 1]%nat.
Proof. vm_compute. reflexivity. Qed.

(** Pause, restart and quit: the restart leaves the pause and rewinds. *)
Example pause_restart_quit :
  let run := play (P := Reference.provider) (Reference.test_session false)
               Reference.test_capture
               [[]; [KEYDOWN K_SPACE]; [KEYDOWN K_r]; [KEYDOWN K_SPACE; KEYDOWN K_q]] in
  frames_read (fst run) = [0; 0]%nat /\
  List.length (filter is_release (fst run)) = 1%nat /\
  match snd run with
  | Finished st => state_of st = Stopped
  | _ => False
  end.
Proof. vm_compute. repeat split. Qed.

(** * Further properties *)

(** ** Transport keys *)

Lemma handle_events_app (st : player) (events events' : list event) :
  handle_events st (events ++ events') = handle_events (handle_events st events) events'.
Proof. unfold handle_events. apply fold_left_app. Qed.

(** X1. A restart as the last event of a poll leaves the pause, whatever
    came before it in the poll, and rewinds: the turn of that poll reads
    frame 0. *)
Theorem restart_rewinds_and_plays {P : ImageProvider} (self : session)
    (events : list event) (st : player) (frame : image) :
  nth_error (frames (cap st)) 0 = Some frame ->
  let st' := handle_events st (events ++ [KEYDOWN K_r]) in
  paused st' = false /\
  pos (cap st') = O /\
  running st' = running (handle_events st events) /\
  exists effs, fst (cycle self (events ++ [KEYDOWN K_r]) st) = FrameRead 0 :: effs.
Proof.
  intros Hframe st'. subst st'. rewrite handle_events_app.
  set (st1 := handle_events st events).
  assert (Hf : frames (cap st1) = frames (cap st)) by apply handle_events_frames.
  cbn [handle_events fold_left handle_event paused cap running cap_set_pos pos].
  repeat split.
  unfold cycle. rewrite handle_events_app. fold st1.
  cbn [handle_events fold_left handle_event paused cap running cap_set_pos pos negb].
  unfold cap_read. cbn [cap_set_pos pos frames]. rewrite Hf, Hframe.
  destruct (render self _ frame); eexists; reflexivity.
Qed.

Lemma restart_rewinds_and_plays_witness :
  exists effs,
    fst (cycle (P := Reference.provider) (Reference.test_session false)
           [KEYDOWN K_SPACE; KEYDOWN K_r]
           {| cap := cap_set_pos Reference.test_capture 1; running := true;
              paused := false; preview_on := true |}) = FrameRead 0 :: effs.
Proof.
  destruct (restart_rewinds_and_plays (P := Reference.provider)
              (Reference.test_session false) [KEYDOWN K_SPACE]
              {| cap := cap_set_pos Reference.test_capture 1; running := true;
                 paused := false; preview_on := true |} Reference.half_frame)
    as (_ & _ & _ & H); [reflexivity | exact H].
Defined.

Lemma keeps_pause_event (st : player) (ev : event) :
  keeps_pause ev = true ->
  cap (handle_event st ev) = cap st /\ paused (handle_event st ev) = paused st.
Proof. destruct ev as [|[]|]; simpl; intros H; try discriminate; auto. Qed.

Lemma keeps_pause_events (events : list event) (st : player) :
  forallb keeps_pause events = true ->
  cap (handle_events st events) = cap st /\
  paused (handle_events st events) = paused st.
Proof.
  unfold handle_events. revert st.
  induction events as [|ev events IH]; intros st H; [auto|].
  simpl in H. apply andb_true_iff in H. destruct H as [Hev Hevs].
  simpl. destruct (IH (handle_event st ev) Hevs) as [Hc Hp].
  destruct (keeps_pause_event st ev Hev) as [Hc' Hp'].
  split; congruence.
Qed.

(** X2. While the player is paused and neither space nor [r] is pressed, a
    turn does nothing but wait 100 ms and refresh the pause overlay: the
    whole trace is that pair, once per turn taken (one per poll when the
    polls run out before a quit).  No frame is read, drawn or paced, the
    cursor stays where it is and no turn raises. *)
Theorem paused_reads_nothing {P : ImageProvider} (self : session)
    (polls : list (list event)) (st : player) :
  paused st = true ->
  forallb (forallb keeps_pause) polls = true ->
  exists effs st',
    (play_loop self polls st = (effs, Finished st') \/
     play_loop self polls st = (effs, Starved st')) /\
    cap st' = cap st /\
    paused st' = true /\
    frames_read effs = [] /\
    filter is_tick effs = [] /\
    exists turns,
      effs = pause_turns turns /\
      (turns <= List.length polls)%nat /\
      (play_loop self polls st = (effs, Starved st') ->
       turns = List.length polls).
Proof.
  revert st. induction polls as [|events polls IH]; intros st Hp Hk.
  - exists [], st. cbn [play_loop]. destruct (running st); cbn [negb].
    + split; [now right|]. do 4 (split; [auto|]).
      exists O. split; [reflexivity|]. split; [apply le_n | reflexivity].
    + split; [now left|]. do 4 (split; [auto|]).
      exists O. split; [reflexivity|]. split; [apply Nat.le_0_l|].
      intros H. discriminate.
  - simpl in Hk. apply andb_true_iff in Hk. destruct Hk as [Hev Hk].
    destruct (running st) eqn:Hrun.
    2:{ exists [], st. rewrite (play_loop_stopped self _ st Hrun).
        split; [now left|]. do 4 (split; [auto|]).
        exists O. split; [reflexivity|]. split; [apply Nat.le_0_l|].
        intros H. discriminate. }
    destruct (keeps_pause_events events st Hev) as [Hc Hp'].
    cbn [play_loop]. rewrite Hrun. cbn [negb]. unfold cycle.
    rewrite Hp', Hp. cbn [negb].
    destruct (IH (handle_events st events))
      as (effs & st' & Hout & Hc' & Hp'' & Hr & Ht & turns & He & Hle & Hst);
      [congruence | exact Hk |].
    exists ([TimeWait 100; PausedFlip] ++ effs), st'.
    split; [destruct Hout as [E|E]; rewrite E; auto|].
    split; [congruence|]. split; [exact Hp''|].
    split; [exact Hr|]. split; [exact Ht|].
    exists (S turns). split; [rewrite He; reflexivity|].
    split; [cbn [List.length]; lia|].
    destruct (play_loop self polls (handle_events st events)) as [effs0 out0].
    intros H. injection H as H1 H2. subst out0 effs0.
    cbn [List.length]. f_equal. now apply Hst.
Qed.

Lemma paused_reads_nothing_witness :
  exists effs st',
    (play_loop (P := Reference.provider) (Reference.test_session false)
       [[KEYDOWN K_p]; []; [OTHER]]
       {| cap := cap_set_pos Reference.test_capture 1; running := true;
          paused := true; preview_on := true |} = (effs, Finished st') \/
     play_loop (P := Reference.provider) (Reference.test_session false)
       [[KEYDOWN K_p]; []; [OTHER]]
       {| cap := cap_set_pos Reference.test_capture 1; running := true;
          paused := true; preview_on := true |} = (effs, Starved st')) /\
    pos (cap st') = 1%nat /\
    frames_read effs = [] /\
    exists turns, effs = pause_turns turns /\ (turns <= 3)%nat.
Proof.
  destruct (paused_reads_nothing (P := Reference.provider)
              (Reference.test_session false) [[KEYDOWN K_p]; []; [OTHER]]
              {| cap := cap_set_pos Reference.test_capture 1; running := true;
                 paused := true; preview_on := true |})
    as (effs & st' & Hout & Hc & _ & Hr & _ & turns & He & Hle & _);
    [reflexivity | reflexivity |].
  exists effs, st'. split; [exact Hout|]. split; [now rewrite Hc|].
  split; [exact Hr|]. exists turns. split; [exact He | exact Hle].
Defined.

(** X3. The preview flag after a poll is the flag before it, flipped once
    for every [p] among the events: two presses restore it.  The [p] key
    touches nothing else: capture, running and pause are as before. *)
Theorem preview_toggle_parity (events : list event) (st : player) :
  preview_on (handle_events st events) =
    xorb (preview_on st) (Nat.odd (List.length (filter is_preview_key events))) /\
  (forallb is_preview_key events = true ->
   cap (handle_events st events) = cap st /\
   running (handle_events st events) = running st /\
   paused (handle_events st events) = paused st).
Proof.
  unfold handle_events. revert st.
  induction events as [|ev events IH]; intros st.
  - simpl. split; [now rewrite xorb_false_r | auto].
  - cbn [fold_left]. destruct (IH (handle_event st ev)) as [Hpar Hrest].
    split.
    + rewrite Hpar. cbn [filter].
      destruct ev as [|[]|]; cbn [is_preview_key handle_event preview_on]; try reflexivity.
      cbn [List.length]. rewrite Nat.odd_succ, <- Nat.negb_odd.
      destruct (preview_on st), (Nat.odd _); reflexivity.
    + intros H. cbn [forallb] in H. apply andb_true_iff in H. destruct H as [Hev Hevs].
      destruct (Hrest Hevs) as (Hc & Hr & Hp).
      destruct ev as [|[]|]; try discriminate.
      rewrite Hc, Hr, Hp. auto.
Qed.

Lemma preview_toggle_parity_witness :
  cap (handle_events (initial_player (Reference.test_session true) Reference.test_capture)
         [KEYDOWN K_p; KEYDOWN K_p]) = Reference.test_capture.
Proof.
  destruct (preview_toggle_parity [KEYDOWN K_p; KEYDOWN K_p]
              (initial_player (Reference.test_session true) Reference.test_capture))
    as (_ & H).
  destruct H as (Hc & _); [reflexivity | exact Hc].
Defined.

(** ** The end of a session *)

Section LoopFacts.

Context {P : ImageProvider}.
Variable self : session.

Lemma cycle_keeps_frames (events : list event) (st st' : player) (effs : list effect) :
  cycle self events st = (effs, Ok st') ->
  frames (cap st') = frames (cap st) /\
  running st' = running (handle_events st events) /\
  Forall (fun e => is_cleanup e = false) effs /\
  Forall (within_video (List.length (frames (cap st)))) effs.
Proof.
  pose proof (handle_events_frames events st) as Hf.
  unfold cycle. set (st1 := handle_events st events) in *.
  destruct (negb (paused st1)).
  - unfold cap_read.
    destruct (nth_error (frames (cap st1)) (pos (cap st1))) as [frame|] eqn:Er.
    + destruct (render self (preview_on st1) frame); [|discriminate].
      intros E. injection E as <- <-. cbn [cap cap_set_pos frames running pos].
      assert (Hlt : (pos (cap st1) < List.length (frames (cap st)))%nat).
      { rewrite <- Hf. apply nth_error_Some. congruence. }
      split; [exact Hf|]. split; [reflexivity|].
      split; repeat (apply Forall_cons || apply Forall_nil);
        cbn [within_video is_cleanup is_release is_teardown orb pos];
        auto; lia.
    + intros E. injection E as <- <-. cbn [cap cap_set_pos frames running].
      repeat split; auto.
  - intros E. injection E as <- <-.
    split; [exact Hf|]. split; [reflexivity|].
    split; repeat (apply Forall_cons || apply Forall_nil);
      cbn [within_video is_cleanup is_release is_teardown orb]; auto.
Qed.

Lemma cycle_raise_effects (events : list event) (st : player) (effs : list effect)
    (e : exn) :
  cycle self events st = (effs, Raise e) ->
  Forall (fun e => is_cleanup e = false) effs /\
  Forall (within_video (List.length (frames (cap st)))) effs.
Proof.
  pose proof (handle_events_frames events st) as Hf.
  unfold cycle. set (st1 := handle_events st events) in *.
  destruct (negb (paused st1)); [|discriminate].
  unfold cap_read.
  destruct (nth_error (frames (cap st1)) (pos (cap st1))) as [frame|] eqn:Er;
    [|discriminate].
  destruct (render self (preview_on st1) frame); [discriminate|].
  intros E. injection E as <- <-.
  assert (Hlt : (pos (cap st1) < List.length (frames (cap st)))%nat).
  { rewrite <- Hf. apply nth_error_Some. congruence. }
  split; repeat (apply Forall_cons || apply Forall_nil);
    cbn [within_video is_cleanup is_release is_teardown orb]; auto.
Qed.

(** The loop itself releases nothing and stays within the video. *)
Lemma play_loop_effects (polls : list (list event)) (st : player) :
  Forall (fun e => is_cleanup e = false) (fst (play_loop self polls st)) /\
  Forall (within_video (List.length (frames (cap st)))) (fst (play_loop self polls st)).
Proof.
  revert st. induction polls as [|events polls IH]; intros st.
  - simpl. destruct (negb (running st)); simpl; split; constructor.
  - cbn [play_loop]. destruct (negb (running st)); [simpl; split; constructor|].
    destruct (cycle self events st) as [effs [st'|e]] eqn:E.
    + destruct (cycle_keeps_frames _ _ _ _ E) as (Hf & _ & Hc & Hw).
      destruct (IH st') as [Hc' Hw']. rewrite Hf in Hw'.
      destruct (play_loop self polls st') as [effs' out]. simpl in *.
      split; apply Forall_app; auto.
    + destruct (cycle_raise_effects _ _ _ _ E) as [Hc Hw]. simpl. auto.
Qed.

(** Polls after the one that holds a quit are never looked at. *)
Lemma play_loop_after_quit (before : list (list event)) (events : list event)
    (after after' : list (list event)) (st : player) :
  existsb is_quit events = true ->
  play_loop self (before ++ events :: after) st =
  play_loop self (before ++ events :: after') st.
Proof.
  intros Hq. revert st. induction before as [|evs before IH]; intros st.
  - cbn [app play_loop]. destruct (negb (running st)); [reflexivity|].
    destruct (cycle self events st) as [effs [st'|e]] eqn:E; [|reflexivity].
    destruct (cycle_keeps_frames _ _ _ _ E) as (_ & Hr & _).
    rewrite (handle_events_quit events st Hq) in Hr.
    now rewrite !play_loop_stopped by exact Hr.
  - cbn [app play_loop]. destruct (negb (running st)); [reflexivity|].
    destruct (cycle self evs st) as [effs [st'|e]]; [|reflexivity].
    now rewrite IH.
Qed.

End LoopFacts.

(** X4. Whatever is polled after the poll that holds a quit (a quit key or
    the closing of the window) has no effect: the session is the same,
    trace and outcome. *)
Theorem polls_after_quit_ignored {P : ImageProvider} (self : session) (c : capture)
    (before : list (list event)) (events : list event)
    (after after' : list (list event)) :
  existsb is_quit events = true ->
  play self c (before ++ events :: after) = play self c (before ++ events :: after').
Proof.
  intros Hq. unfold play.
  now rewrite (play_loop_after_quit self before events after after' _ Hq).
Qed.

Lemma polls_after_quit_ignored_witness :
  play (P := Reference.provider) (Reference.test_session true) Reference.test_capture
    ([[]] ++ [QUIT] :: [[KEYDOWN K_r]; []]) =
  play (P := Reference.provider) (Reference.test_session true) Reference.test_capture
    ([[]] ++ [QUIT] :: []).
Proof.
  apply (polls_after_quit_ignored (P := Reference.provider)). reflexivity.
Defined.

Lemma play_release_count {P : ImageProvider} (self : session) (c : capture)
    (polls : list (list event)) :
  List.length (filter is_release (fst (play self c polls))) =
    match snd (play self c polls) with Finished _ => 1%nat | _ => O end.
Proof.
  unfold play. destruct (frame_delay (fps self)) as [d|e]; [|reflexivity].
  destruct (play_loop_effects self polls
              {| cap := c; running := true; paused := false;
                 preview_on := show_preview self |}) as [Hc _].
  destruct (play_loop self polls _) as [effs out]. cbn [fst] in Hc.
  destruct (no_cleanup_filter effs Hc) as [H1 _].
  destruct out as [st'|e|st']; cbn [fst snd]; [|now rewrite H1..].
  rewrite filter_app, H1. reflexivity.
Qed.

(** C6 (as amended). A quit key (escape or q) stops the player from any
    state.  The video source is released exactly once when the loop of
    [play] ends and not at all when a turn raises, so never twice.  In a
    session whose turns do not raise (positive grid and preview box,
    non-empty frames, a frame delay that computes) a quit key in any poll
    makes [play] return with the player stopped, one release of the video
    source and one teardown of the display. *)
Theorem quit_releases_once {P : ImageProvider} {L : ProviderLaws P}
    (ext : bool) (self : session) (c : capture) (polls : list (list event)) :
  (forall st events,
     existsb is_quit_key events = true ->
     state_of (handle_events st events) = Stopped) /\
  List.length (filter is_release (fst (play self c polls))) =
    match snd (play self c polls) with Finished _ => 1%nat | _ => O end /\
  (chars self = select_chars ext ->
   0 < ascii_width self ->
   0 < ascii_height self ->
   0 < preview_width self ->
   0 < preview_height self ->
   Forall (fun f => image_empty f = false) (frames c) ->
   (exists d, frame_delay (fps self) = Ok d) ->
   existsb (existsb is_quit_key) polls = true ->
   exists effs st',
     play self c polls = (effs, Finished st') /\
     state_of st' = Stopped /\
     List.length (filter is_release effs) = 1%nat /\
     List.length (filter is_teardown effs) = 1%nat).
Proof.
  split; [|split].
  - intros st events Hk. unfold state_of.
    now rewrite (handle_events_quit events st (quit_key_is_quit _ Hk)).
  - apply play_release_count.
  - intros Hc Hw Hh Hpw Hph Hne [d Hd] Hq.
    unfold play. rewrite Hd.
    destruct (play_loop_quits ext self Hc Hw Hh Hpw Hph polls
                {| cap := c; running := true; paused := false;
                   preview_on := show_preview self |} Hne Hq)
      as (effs & st' & E & Hr & Hclean).
    rewrite E. exists (effs ++ cleanup), st'.
    destruct (no_cleanup_filter effs Hclean) as [H1 H2].
    split; [reflexivity|]. split; [unfold state_of; now rewrite Hr|].
    rewrite !filter_app, H1, H2. split; reflexivity.
Qed.

Lemma quit_releases_once_witness :
  exists effs st',
    play (P := Reference.provider) (Reference.test_session true)
      Reference.test_capture
      [[]; []; []; [KEYDOWN K_SPACE]; []; [KEYDOWN K_q]; []] = (effs, Finished st') /\
    state_of st' = Stopped /\
    List.length (filter is_release effs) = 1%nat.
Proof.
  destruct (quit_releases_once (L := reference_laws) false
              (Reference.test_session true) Reference.test_capture
              [[]; []; []; [KEYDOWN K_SPACE]; []; [KEYDOWN K_q]; []])
    as (_ & _ & H).
  destruct H as (effs & st' & E & Hs & Hr & _); try reflexivity.
  - repeat constructor.
  - exists 33. vm_compute. reflexivity.
  - exists effs, st'. auto.
Defined.

(** C6, the claim as written: at grid width 2 the constructor derives the
    grid height 0 for a 4 x 2 source; a q in the first poll stops the
    player, the frame read in that turn cannot be converted, and [play]
    ends with the error and without a release. *)
Lemma quit_without_release :
  init Reference.test_capture Reference.test_font 2 None true false true
    = Ok Reference.flat_session /\
  state_of (handle_events
              (initial_player Reference.flat_session Reference.test_capture)
              [KEYDOWN K_q]) = Stopped /\
  play (P := Reference.provider) Reference.flat_session Reference.test_capture
    [[KEYDOWN K_q]] = ([FrameRead 0], Raised CvError) /\
  filter is_release [FrameRead 0] = [].
Proof. repeat split; vm_compute; reflexivity. Qed.

(** X5. [play] releases the video source and quits pygame exactly once when
    its loop ends, and not at all when a turn raises (or when the frame
    delay does): [cleanup] is the last thing a finished session does, and an
    exception leaves the source unreleased.  No read goes beyond the last
    frame, and the counter shown with a frame is between 1 and their
    number. *)
Theorem release_only_when_finished {P : ImageProvider} (self : session) (c : capture)
    (polls : list (list event)) :
  let effs := fst (play self c polls) in
  List.length (filter is_release effs) =
    match snd (play self c polls) with Finished _ => 1%nat | _ => O end /\
  List.length (filter is_teardown effs) =
    match snd (play self c polls) with Finished _ => 1%nat | _ => O end /\
  (forall st, snd (play self c polls) = Finished st ->
     exists effs', effs = effs' ++ [CapRelease; PygameQuit]) /\
  Forall (within_video (List.length (frames c))) effs.
Proof.
  unfold play. destruct (frame_delay (fps self)) as [d|e]; cbn [fst snd].
  2:{ repeat split; try constructor. intros st H. discriminate. }
  destruct (play_loop_effects self polls
              {| cap := c; running := true; paused := false;
                 preview_on := show_preview self |}) as [Hc Hw].
  destruct (play_loop self polls _) as [effs out]. cbn [fst cap] in Hc, Hw.
  destruct (no_cleanup_filter effs Hc) as [H1 H2].
  destruct out as [st'|e|st']; cbn [fst snd].
  - rewrite !filter_app, H1, H2. repeat split.
    + intros st _. now exists effs.
    + apply Forall_app. split; [exact Hw | repeat constructor].
  - rewrite H1, H2. repeat split; auto. intros st H. discriminate.
  - rewrite H1, H2. repeat split; auto. intros st H. discriminate.
Qed.

Lemma release_only_when_finished_witness :
  exists effs',
    fst (play (P := Reference.provider) (Reference.test_session true)
           Reference.test_capture [[]; [KEYDOWN K_q]]) = effs' ++ [CapRelease; PygameQuit].
Proof.
  destruct (release_only_when_finished (P := Reference.provider)
              (Reference.test_session true) Reference.test_capture [[]; [KEYDOWN K_q]])
    as (_ & _ & H & _).
  eapply H. vm_compute. reflexivity.
Defined.

Section Sessions.

Context {P : ImageProvider} {L : ProviderLaws P}.
Variable ext : bool.
Variable self : session.
Hypothesis chars_selected : chars self = select_chars ext.
Hypothesis width_positive : 0 < ascii_width self.
Hypothesis height_positive : 0 < ascii_height self.
Hypothesis preview_width_positive : 0 < preview_width self.
Hypothesis preview_height_positive : 0 < preview_height self.

(** Once any quit is among the polled events the loop ends. *)
Lemma play_loop_quits_any (polls : list (list event)) (st : player) :
  Forall (fun f => image_empty f = false) (frames (cap st)) ->
  existsb (existsb is_quit) polls = true ->
  exists effs st',
    play_loop self polls st = (effs, Finished st') /\ running st' = false.
Proof.
  revert st. induction polls as [|events polls IH]; intros st Hne Hq;
    [discriminate|].
  destruct (running st) eqn:Hrun.
  2:{ exists [], st. rewrite play_loop_stopped by exact Hrun. auto. }
  cbn [play_loop]. rewrite Hrun. cbn [negb].
  destruct (cycle_ok ext self chars_selected width_positive height_positive
              preview_width_positive preview_height_positive events st Hne)
    as (effs & st1 & E & Hf & Hr & _).
  rewrite E.
  cbn [existsb] in Hq. apply orb_true_iff in Hq. destruct Hq as [Hq|Hq].
  - rewrite (handle_events_quit events st Hq) in Hr.
    rewrite play_loop_stopped by exact Hr.
    exists (effs ++ []), st1. auto.
  - destruct (IH st1) as (effs' & st' & E' & Hr'); [now rewrite Hf | exact Hq |].
    rewrite E'. exists (effs ++ effs'), st'. auto.
Qed.

(** Without input, the frames from the cursor on are read in order, each
    shown and paced once; one more turn meets the end of the stream and
    rewinds. *)
Lemma one_pass_from (k : nat) (st : player) :
  Forall (fun f => image_empty f = false) (frames (cap st)) ->
  running st = true -> paused st = false ->
  (pos (cap st) + k)%nat = List.length (frames (cap st)) ->
  exists effs st',
    play_loop self (repeat [] (S k)) st = (effs, Starved st') /\
    frames_read effs = seq (pos (cap st)) k /\
    List.length (filter is_tick effs) = k /\
    pos (cap st') = O /\
    state_of st' = Playing.
Proof.
  revert st. induction k as [|k IH]; intros [c r p pv] Hne Hrun Hp Hlen;
    cbn [cap running paused] in *; subst r p.
  - assert (Heos : nth_error (frames c) (pos c) = None)
      by (apply nth_error_None; lia).
    cbn [repeat play_loop running negb].
    unfold cycle, handle_events. cbn [fold_left paused negb cap].
    unfold cap_read. rewrite Heos.
    cbn [running negb app play_loop].
    eexists _, _. split; [reflexivity|].
    unfold state_of. cbn. auto.
  - destruct (nth_error (frames c) (pos c)) as [frame|] eqn:Er;
      [|apply nth_error_None in Er; lia].
    assert (Hf : image_empty frame = false).
    { rewrite Forall_forall in Hne. apply Hne. eapply nth_error_In. exact Er. }
    destruct (render_ok ext self chars_selected width_positive height_positive
                preview_width_positive preview_height_positive
                pv frame Hf) as (blits & Eb).
    destruct (IH {| cap := cap_set_pos c (S (pos c));
                    running := true; paused := false; preview_on := pv |})
      as (effs & st' & E & Hr & Ht & Hpos & Hs); auto.
    { cbn [cap cap_set_pos pos frames]. lia. }
    change (repeat [] (S (S k))) with (@nil event :: repeat [] (S k)).
    cbn [play_loop running negb].
    unfold cycle, handle_events. cbn [fold_left paused negb cap preview_on].
    unfold cap_read. rewrite Er, Eb. cbn [running paused preview_on].
    rewrite E.
    eexists _, st'. split; [reflexivity|].
    cbn [app frames_read filter is_tick List.length seq].
    cbn [cap cap_set_pos pos] in Hr. rewrite Hr, Ht. auto.
Qed.

End Sessions.

(** X6. Closing the window ends a session like a quit key does: with a
    [QUIT] event or a quit key in any poll of a well-configured session,
    [play] returns with the player stopped, the source released once and
    pygame quit once. *)
Theorem any_quit_ends_session {P : ImageProvider} {L : ProviderLaws P}
    (ext : bool) (self : session) (c : capture) (polls : list (list event)) :
  chars self = select_chars ext ->
  0 < ascii_width self ->
  0 < ascii_height self ->
  0 < preview_width self ->
  0 < preview_height self ->
  Forall (fun f => image_empty f = false) (frames c) ->
  (exists d, frame_delay (fps self) = Ok d) ->
  existsb (existsb is_quit) polls = true ->
  exists effs st',
    play self c polls = (effs ++ [CapRelease; PygameQuit], Finished st') /\
    state_of st' = Stopped /\
    filter is_release effs = [] /\
    filter is_teardown effs = [].
Proof.
  intros Hc Hw Hh Hpw Hph Hne [d Hd] Hq.
  unfold play. rewrite Hd.
  destruct (play_loop_quits_any ext self Hc Hw Hh Hpw Hph polls
              {| cap := c; running := true; paused := false;
                 preview_on := show_preview self |} Hne Hq)
    as (effs & st' & E & Hr).
  pose proof (play_loop_effects self polls
                {| cap := c; running := true; paused := false;
                   preview_on := show_preview self |}) as [Hclean _].
  rewrite E in Hclean |- *. cbn [fst] in Hclean.
  destruct (no_cleanup_filter effs Hclean) as [H1 H2].
  exists effs, st'. repeat split; auto.
  unfold state_of. now rewrite Hr.
Qed.

Lemma any_quit_ends_session_witness :
  exists effs st',
    play (P := Reference.provider) (Reference.test_session true)
      Reference.test_capture [[]; [KEYDOWN K_SPACE]; [QUIT]; []]
    = (effs ++ [CapRelease; PygameQuit], Finished st') /\
    state_of st' = Stopped.
Proof.
  destruct (any_quit_ends_session (L := reference_laws) false
              (Reference.test_session true) Reference.test_capture
              [[]; [KEYDOWN K_SPACE]; [QUIT]; []])
    as (effs & st' & E & Hs & _); try reflexivity.
  - repeat constructor.
  - exists 33. vm_compute. reflexivity.
  - exists effs, st'. auto.
Defined.

(** X7. Left alone, a well-configured player with [n] frames reads the
    frames 0 to [n - 1] in order, paces each of them once, and spends one
    more turn on the end of the stream, which shows and paces nothing and
    puts the cursor back on frame 0: one pass takes [n + 1] turns. *)
Theorem one_pass_over_video {P : ImageProvider} {L : ProviderLaws P}
    (ext : bool) (self : session) (c : capture) :
  chars self = select_chars ext ->
  0 < ascii_width self ->
  0 < ascii_height self ->
  0 < preview_width self ->
  0 < preview_height self ->
  Forall (fun f => image_empty f = false) (frames c) ->
  (exists d, frame_delay (fps self) = Ok d) ->
  pos c = O ->
  exists effs st',
    play self c (repeat [] (S (List.length (frames c)))) = (effs, Starved st') /\
    frames_read effs = seq 0 (List.length (frames c)) /\
    List.length (filter is_tick effs) = List.length (frames c) /\
    pos (cap st') = O /\
    state_of st' = Playing.
Proof.
  intros Hc Hw Hh Hpw Hph Hne [d Hd] Hpos.
  unfold play. rewrite Hd.
  destruct (one_pass_from ext self Hc Hw Hh Hpw Hph (List.length (frames c))
              {| cap := c; running := true; paused := false;
                 preview_on := show_preview self |})
    as (effs & st' & E & Hr & Ht & Hp & Hs); auto.
  { cbn [cap]. now rewrite Hpos. }
  rewrite E. cbn [cap] in Hr. rewrite Hpos in Hr.
  exists effs, st'. auto.
Qed.

Lemma one_pass_over_video_witness :
  exists effs st',
    play (P := Reference.provider) (Reference.test_session true)
      Reference.test_capture [[]; []; []] = (effs, Starved st') /\
    frames_read effs = [0; 1]%nat /\
    pos (cap st') = O.
Proof.
  destruct (one_pass_over_video (L := reference_laws) false
              (Reference.test_session true) Reference.test_capture)
    as (effs & st' & E & Hr & _ & Hp & _); try reflexivity.
  - repeat constructor.
  - exists 33. vm_compute. reflexivity.
  - exists effs, st'. auto.
Defined.

(** X8. A session with a grid width or height that is not positive (the
    constructor lets them through) converts no frame: [cv2.resize] rejects
    the empty target size.  Its first turn that reads a frame raises, and
    [play] ends with that error after the read, nothing shown and nothing
    released. *)
Theorem degenerate_grid_raises {P : ImageProvider} (self : session) (c : capture)
    (events : list event) (polls : list (list event)) (frame : image) :
  ascii_width self <= 0 \/ ascii_height self <= 0 ->
  (exists d, frame_delay (fps self) = Ok d) ->
  pos c = O ->
  nth_error (frames c) 0 = Some frame ->
  paused (handle_events (initial_player self c) events) = false ->
  (forall f, frame_to_ascii self f = Raise CvError) /\
  play self c (events :: polls) = ([FrameRead 0], Raised CvError).
Proof.
  intros Hdeg [d Hd] Hpos Hframe Hp.
  assert (Hconv : forall f, frame_to_ascii self f = Raise CvError).
  { intros f. unfold frame_to_ascii, cv2_resize.
    destruct Hdeg as [H|H].
    - apply Z.leb_le in H. now rewrite H.
    - apply Z.leb_le in H. rewrite H. now rewrite orb_true_r. }
  split; [exact Hconv|].
  unfold play. rewrite Hd. fold (initial_player self c).
  cbn [play_loop]. cbn [initial_player running negb].
  unfold cycle. fold (initial_player self c). rewrite Hp. cbn [negb].
  pose proof (handle_events_frames events (initial_player self c)) as Hf.
  pose proof (handle_events_rewound events (initial_player self c) Hpos) as Hr.
  unfold cap_read. rewrite Hf, Hr. cbn [initial_player cap]. rewrite Hframe.
  unfold render. rewrite Hconv. reflexivity.
Qed.

Lemma degenerate_grid_raises_witness :
  play (P := Reference.provider)
    {| ascii_width := 0; ascii_height := 0; use_color := true;
       chars := ASCII_CHARS; show_preview := true; fps := 30%float;
       frame_count := 2; original_width := 4; original_height := 2;
       font := Reference.test_font;
       ascii_screen_width := 0; ascii_screen_height := 0;
       preview_width := 240; preview_height := 120;
       screen_width := 20; screen_height := 20 |}
    Reference.test_capture ([KEYDOWN K_q] :: []) = ([FrameRead 0], Raised CvError).
Proof.
  eapply (degenerate_grid_raises (P := Reference.provider)).
  - left. simpl. lia.
  - exists 33. vm_compute. reflexivity.
  - reflexivity.
  - reflexivity.
  - reflexivity.
Defined.

(** ** Drawing the grid *)

Lemma draw_line_places (self : session) (ca : option image) (r : nat)
    (line : string) (k : nat) (x y : Z) (blits : list blit) :
  draw_line self ca r line k x y = Ok blits ->
  map place blits = line_places (String.length line) x y (glyph_width (font self)).
Proof.
  revert k x blits. induction line as [|c line IH]; intros k x blits H.
  - injection H as <-. reflexivity.
  - cbn [draw_line] in H.
    destruct (cell_color self ca r k c) as [col|]; [|discriminate].
    cbn [bind] in H.
    destruct (draw_line self ca r line (S k) (x + glyph_width (font self)) y)
      as [rest|] eqn:E; [|discriminate].
    injection H as <-. specialize (IH _ _ _ E).
    cbn [map String.length]. unfold place at 1. cbn [at_x at_y]. rewrite IH.
    unfold line_places. cbn [seq map]. rewrite <- seq_shift, map_map.
    f_equal; [f_equal; lia|].
    apply map_ext. intros j. f_equal. lia.
Qed.

Lemma flat_map_shift {A : Type} (f : nat -> list A) (n : nat) :
  List.flat_map f (seq 1 n) = List.flat_map (fun i => f (S i)) (seq 0 n).
Proof.
  rewrite <- seq_shift, !flat_map_concat_map, map_map. reflexivity.
Qed.

Lemma draw_lines_places (self : session) (ca : option image) (w : nat)
    (lines : list string) (r : nat) (y : Z) (blits : list blit) :
  (0 < w)%nat ->
  Forall (fun l => String.length l = w) lines ->
  draw_lines self ca (lines ++ [EmptyString]) r y = Ok blits ->
  map place blits =
    List.flat_map (fun i => line_places w 10 (y + Z.of_nat i * glyph_height (font self))
                         (glyph_width (font self)))
             (seq 0 (List.length lines)).
Proof.
  intros Hw Hlines. revert r y blits.
  induction Hlines as [|l ls Hl _ IH]; intros r y blits H.
  - cbn in H. injection H as <-. reflexivity.
  - destruct l as [|c l']; [simpl in Hl; lia|].
    cbn [app draw_lines] in H.
    destruct (draw_line self ca r (String c l') 0 10 y) as [here|] eqn:E;
      [|discriminate].
    cbn [bind] in H.
    destruct (draw_lines self ca (ls ++ [EmptyString]) (S r)
                (y + glyph_height (font self))) as [rest|] eqn:E';
      [|discriminate].
    injection H as <-.
    rewrite map_app, (draw_line_places _ _ _ _ _ _ _ _ E), (IH _ _ _ E'), Hl.
    cbn [List.length seq List.flat_map]. rewrite flat_map_shift.
    f_equal; [f_equal; lia|].
    apply flat_map_ext. intros i. f_equal. lia.
Qed.

Section Grid.

Context {P : ImageProvider} {L : ProviderLaws P}.
Variable ext : bool.
Variable self : session.
Hypothesis chars_selected : chars self = select_chars ext.
Hypothesis width_positive : 0 < ascii_width self.
Hypothesis height_positive : 0 < ascii_height self.

(** The text and the colors of a frame are drawn without an error. *)
Lemma draw_grid_ok (frame : image) :
  image_empty frame = false ->
  exists rows blits,
    frame_to_ascii self frame =
      Ok (join_lines rows,
          if use_color self
          then Some (resample frame (ascii_width self) (ascii_height self))
          else None) /\
    draw_lines self
      (if use_color self
       then Some (resample frame (ascii_width self) (ascii_height self))
       else None) (rows ++ [EmptyString]) O 10 = Ok blits /\
    draw_ascii_frame self (join_lines rows)
      (if use_color self
       then Some (resample frame (ascii_width self) (ascii_height self))
       else None) = Ok blits /\
    Z.of_nat (List.length rows) = ascii_height self /\
    Forall (fun l => len l = ascii_width self) rows.
Proof.
  intros Hne.
  destruct (conversion_grid ext self chars_selected width_positive height_positive
              frame Hne) as (rows & E & Hg).
  destruct (grid_rows ext self chars_selected width_positive height_positive
              frame rows Hg) as (Hn & Hrows).
  pose proof (grid_split ext self chars_selected rows Hrows) as Hsplit.
  set (colors := if use_color self
                 then Some (resample frame (ascii_width self) (ascii_height self))
                 else None) in *.
  destruct (draw_lines_cells self colors (rows ++ [EmptyString]) O 10)
    as (blits & Ed & _).
  { intros i line j c Hi Hj. cbn [Nat.add].
    destruct (nth_error_rows _ _ _ _ Hi) as [[Hrow Hlt]| ->];
      [|destruct j; discriminate].
    rewrite Forall_forall in Hrows.
    destruct (Hrows line (nth_error_In _ _ Hrow)) as [Hlen Hset].
    assert (Hjw : Z.of_nat j < ascii_width self).
    { rewrite <- Hlen. unfold len. rewrite <- length_glyphs.
      apply Nat2Z.inj_lt. apply nth_error_Some. congruence. }
    subst colors. destruct (use_color self) eqn:Hu.
    - eapply color_cell; [exact Hu | | | exact Hjw].
      + apply resample_shape; assumption.
      + lia.
    - rewrite Forall_forall in Hset.
      destruct (gray_cell ext self None i j c chars_selected Hu
                  (Hset c (nth_error_In _ _ Hj))) as (k & _ & Hk).
      eauto. }
  exists rows, blits. split; [exact E|]. split; [exact Ed|].
  split; [unfold draw_ascii_frame; now rewrite Hsplit|].
  split; [exact Hn|].
  eapply Forall_impl; [|exact Hrows]. now intros l [Hl _].
Qed.

End Grid.

(** X9. The grid of a frame is drawn cell by cell at a fixed pitch: the
    glyph of line [i] and column [j] lands at
    [(10 + j * char_width, 10 + i * char_height)], in row-major order, so
    that [ascii_height * ascii_width] glyphs are drawn whatever the frame
    holds. *)
Theorem grid_drawn_at_fixed_pitch {P : ImageProvider} {L : ProviderLaws P}
    (ext : bool) (self : session) (frame : image) :
  chars self = select_chars ext ->
  0 < ascii_width self ->
  0 < ascii_height self ->
  image_empty frame = false ->
  exists ascii_text color_array blits,
    frame_to_ascii self frame = Ok (ascii_text, color_array) /\
    draw_ascii_frame self ascii_text color_array = Ok blits /\
    map place blits =
      grid_places (Z.to_nat (ascii_height self)) (Z.to_nat (ascii_width self))
        (glyph_width (font self)) (glyph_height (font self)) /\
    Z.of_nat (List.length blits) = ascii_height self * ascii_width self.
Proof.
  intros Hc Hw Hh Hne.
  destruct (draw_grid_ok ext self Hc Hw Hh frame Hne)
    as (rows & blits & E & Ed & Ea & Hn & Hrows).
  assert (Hplaces : map place blits =
            grid_places (Z.to_nat (ascii_height self)) (Z.to_nat (ascii_width self))
              (glyph_width (font self)) (glyph_height (font self))).
  { assert (Hlen : Forall (fun l => String.length l = Z.to_nat (ascii_width self)) rows).
    { eapply Forall_impl; [|exact Hrows]. intros l Hl. unfold len in Hl. lia. }
    rewrite (draw_lines_places self _ (Z.to_nat (ascii_width self)) rows O 10 blits
               ltac:(lia) Hlen Ed).
    unfold grid_places. now rewrite <- Hn, Nat2Z.id. }
  eexists _, _, blits. split; [exact E|]. split; [exact Ea|].
  split; [exact Hplaces|].
  rewrite <- (length_map place), Hplaces. unfold grid_places.
  rewrite flat_map_constant_length with (c := Z.to_nat (ascii_width self)).
  - rewrite length_seq. lia.
  - intros i _. unfold line_places. now rewrite length_map, length_seq.
Qed.

Lemma grid_drawn_at_fixed_pitch_witness :
  exists ascii_text color_array blits,
    frame_to_ascii (P := Reference.provider) (Reference.test_session true)
      Reference.half_frame = Ok (ascii_text, color_array) /\
    draw_ascii_frame (Reference.test_session true) ascii_text color_array = Ok blits /\
    map place blits =
      [(10, 10); (16, 10); (22, 10); (28, 10); (10, 22); (16, 22); (22, 22); (28, 22)].
Proof.
  destruct (grid_drawn_at_fixed_pitch (L := reference_laws) false
              (Reference.test_session true) Reference.half_frame)
    as (t & ca & blits & E & Ed & Hp & _);
    [reflexivity | reflexivity | reflexivity | reflexivity |].
  exists t, ca, blits. auto.
Defined.

(** ** Colors of the cells *)

Lemma draw_line_colors (self : session) (ca : image) (r : nat) (row : list pixel)
    (line : string) (pre rest : list pixel) (x y : Z) (blits : list blit) :
  use_color self = true ->
  nth_error ca r = Some row ->
  row = pre ++ rest ->
  (String.length line <= List.length rest)%nat ->
  draw_line self (Some ca) r line (List.length pre) x y = Ok blits ->
  map color blits = map rgb_of_bgr (firstn (String.length line) rest).
Proof.
  intros Hu Hrow. revert pre rest x blits.
  induction line as [|c line IH]; intros pre rest x blits Hsplit Hlen H.
  - injection H as <-. reflexivity.
  - destruct rest as [|p rest]; [simpl in Hlen; lia|].
    cbn [draw_line] in H. unfold cell_color, color_at in H.
    rewrite Hu, Hrow, Hsplit in H.
    rewrite nth_error_app2 in H by lia. rewrite Nat.sub_diag in H.
    cbn [nth_error bind] in H. destruct p as [[b g] rd]. cbn [bind] in H.
    destruct (draw_line self (Some ca) r line (S (List.length pre))
                (x + glyph_width (font self)) y) as [tl|] eqn:E; [|discriminate].
    injection H as <-.
    cbn [String.length firstn map color rgb_of_bgr]. f_equal.
    apply (IH (pre ++ [(b, g, rd)]) rest (x + glyph_width (font self))).
    + rewrite <- app_assoc. exact Hsplit.
    + simpl in Hlen. lia.
    + rewrite length_app. cbn [List.length]. rewrite Nat.add_1_r. exact E.
Qed.

Lemma draw_lines_colors (self : session) (ca : image) (w : nat)
    (lines : list string) (before rows : list (list pixel)) (y : Z)
    (blits : list blit) :
  use_color self = true ->
  (0 < w)%nat ->
  ca = before ++ rows ->
  Forall (fun l => String.length l = w) lines ->
  Forall (fun row => List.length row = w) rows ->
  List.length lines = List.length rows ->
  draw_lines self (Some ca) (lines ++ [EmptyString]) (List.length before) y = Ok blits ->
  map color blits = List.concat (map (map rgb_of_bgr) rows).
Proof.
  intros Hu Hw. revert before rows y blits.
  induction lines as [|l ls IH]; intros before rows y blits Hca Hl Hr Hlen H.
  - destruct rows; [|discriminate]. cbn in H. injection H as <-. reflexivity.
  - destruct rows as [|row rows]; [discriminate|].
    apply Forall_cons_iff in Hl. destruct Hl as [Hl1 Hl2].
    apply Forall_cons_iff in Hr. destruct Hr as [Hr1 Hr2]. subst ca.
    destruct l as [|c l']; [simpl in Hl1; lia|].
    cbn [app draw_lines] in H.
    destruct (draw_line self _ _ (String c l') 0 10 y) as [here|] eqn:E;
      cbn [bind] in H;
      [|discriminate].
    destruct (draw_lines self _ (ls ++ [EmptyString]) _ _)
      as [tl|] eqn:E'; cbn [bind] in H; [|discriminate].
    injection H as <-.
    rewrite map_app. cbn [map List.concat]. f_equal.
    + rewrite (draw_line_colors self (before ++ row :: rows) (List.length before) row
                 (String c l') [] row 10 y here Hu); auto.
      * rewrite Hl1, <- Hr1, firstn_all. reflexivity.
      * rewrite nth_error_app2 by lia. now rewrite Nat.sub_diag.
      * lia.
    + apply (IH (before ++ [row]) rows (y + glyph_height (font self))).
      * now rewrite <- app_assoc.
      * exact Hl2.
      * exact Hr2.
      * simpl in Hlen. lia.
      * rewrite length_app. cbn [List.length]. rewrite Nat.add_1_r. exact E'.
Qed.

(** X10. In color mode the color of every cell is the sample of the resized
    frame at the cell's row and column, with blue and red exchanged (BGR to
    RGB); the glyph does not enter the color. *)
Theorem color_cells_follow_frame {P : ImageProvider} {L : ProviderLaws P}
    (ext : bool) (self : session) (frame : image) :
  chars self = select_chars ext ->
  0 < ascii_width self ->
  0 < ascii_height self ->
  image_empty frame = false ->
  use_color self = true ->
  let resized := resample frame (ascii_width self) (ascii_height self) in
  exists ascii_text blits,
    frame_to_ascii self frame = Ok (ascii_text, Some resized) /\
    draw_ascii_frame self ascii_text (Some resized) = Ok blits /\
    map color blits = List.concat (map (map rgb_of_bgr) resized).
Proof.
  intros Hc Hw Hh Hne Hu resized.
  destruct (draw_grid_ok ext self Hc Hw Hh frame Hne)
    as (rows & blits & E & Ed & Ea & Hn & Hrows).
  rewrite Hu in E, Ed, Ea. fold resized in E, Ed, Ea.
  destruct (resample_shape frame _ _ Hw Hh) as [Hsh Hsw]. fold resized in Hsh, Hsw.
  exists (join_lines rows), blits. split; [exact E|]. split; [exact Ea|].
  apply (draw_lines_colors self resized (Z.to_nat (ascii_width self)) rows []
           resized 10 blits Hu); auto.
  - lia.
  - eapply Forall_impl; [|exact Hrows]. intros l Hl. unfold len in Hl. lia.
  - eapply Forall_impl; [|exact Hsw]. intros row Hrow. simpl in Hrow. lia.
  - lia.
Qed.

Lemma color_cells_follow_frame_witness :
  exists ascii_text blits,
    frame_to_ascii (P := Reference.provider) (Reference.test_session true)
      Reference.half_frame
      = Ok (ascii_text, Some (Reference.nearest_resample Reference.half_frame 4 2)) /\
    draw_ascii_frame (Reference.test_session true) ascii_text
      (Some (Reference.nearest_resample Reference.half_frame 4 2)) = Ok blits /\
    map color blits =
      [(0, 0, 0); (0, 0, 0); (255, 255, 255); (255, 255, 255);
       (0, 0, 0); (0, 0, 0); (255, 255, 255); (255, 255, 255)].
Proof.
  destruct (color_cells_follow_frame (L := reference_laws) false
              (Reference.test_session true) Reference.half_frame)
    as (t & blits & E & Ed & Hcol);
    [reflexivity | reflexivity | reflexivity | reflexivity | reflexivity |].
  exists t, blits. auto.
Defined.

(** ** Glyphs outside of the set *)

Lemma find_none_not_in (c : ascii) (s : string) :
  find c s = None -> ~ In c (glyphs s).
Proof.
  induction s as [|d s IH]; simpl; [tauto|].
  destruct (Ascii.eqb d c) eqn:E; [discriminate|].
  destruct (find c s); [discriminate|].
  intros _ [H|H]; [|now apply IH].
  subst. rewrite Ascii.eqb_refl in E. discriminate.
Qed.

Lemma foreign_glyph_gray (self : session) (ca : option image) (r j : nat) (c : ascii) :
  use_color self = false ->
  ~ In c (glyphs (chars self)) ->
  cell_color self ca r j c = Raise ValueError.
Proof.
  intros Hu Hin. unfold cell_color, gray_val, index. rewrite Hu.
  destruct (find c (chars self)) as [n|] eqn:E; [|reflexivity].
  exfalso. apply Hin. clear -E.
  revert n E. induction (chars self) as [|d s IH]; intros n E; simpl in E;
    [discriminate|].
  destruct (Ascii.eqb d c) eqn:Ed.
  - apply Ascii.eqb_eq in Ed. subst. now left.
  - destruct (find c s) as [m|]; [|discriminate]. right. now apply (IH m).
Qed.

Lemma draw_line_foreign (ext : bool) (self : session) (ca : option image)
    (r : nat) (line : string) (k : nat) (x y : Z) :
  chars self = select_chars ext ->
  use_color self = false ->
  (exists c, In c (glyphs line) /\ ~ In c (glyphs (chars self))) ->
  draw_line self ca r line k x y = Raise ValueError.
Proof.
  intros Hc Hu. revert k x.
  induction line as [|d line IH]; intros k x (c & Hin & Hout); [contradiction|].
  cbn [draw_line].
  destruct (in_dec ascii_dec d (glyphs (chars self))) as [Hd|Hd].
  - destruct (gray_cell ext self ca r k d Hc Hu Hd) as (i & _ & E).
    rewrite E. cbn [bind].
    rewrite IH; [reflexivity|].
    exists c. split; [|exact Hout].
    destruct Hin as [->|Hin]; [contradiction | exact Hin].
  - now rewrite (foreign_glyph_gray self ca r k d Hu Hd).
Qed.

Lemma draw_line_gray_or_foreign (ext : bool) (self : session) (ca : option image)
    (r : nat) (line : string) (k : nat) (x y : Z) :
  chars self = select_chars ext ->
  use_color self = false ->
  (exists blits, draw_line self ca r line k x y = Ok blits) \/
  draw_line self ca r line k x y = Raise ValueError.
Proof.
  intros Hc Hu. revert k x.
  induction line as [|d line IH]; intros k x; [left; now exists []|].
  cbn [draw_line].
  destruct (in_dec ascii_dec d (glyphs (chars self))) as [Hd|Hd].
  - destruct (gray_cell ext self ca r k d Hc Hu Hd) as (i & _ & E).
    rewrite E. cbn [bind].
    destruct (IH (S k) (x + glyph_width (font self))) as [[blits Eb]|Eb];
      rewrite Eb; [left; eexists; reflexivity | now right].
  - right. now rewrite (foreign_glyph_gray self ca r k d Hu Hd).
Qed.

Lemma draw_lines_foreign (ext : bool) (self : session) (ca : option image)
    (lines : list string) (r : nat) (y : Z) :
  chars self = select_chars ext ->
  use_color self = false ->
  (exists line c, In line lines /\ In c (glyphs line) /\
                  ~ In c (glyphs (chars self))) ->
  draw_lines self ca lines r y = Raise ValueError.
Proof.
  intros Hc Hu. revert r y.
  induction lines as [|l ls IH]; intros r y (line & c & Hl & Hin & Hout);
    [contradiction|].
  cbn [draw_lines]. destruct l as [|d l'].
  - apply IH. exists line, c. destruct Hl as [<-|Hl]; [contradiction | auto].
  - destruct Hl as [<-|Hl].
    + rewrite (draw_line_foreign ext self ca r (String d l') 0 10 y Hc Hu);
        [reflexivity | eauto].
    + destruct (draw_line_gray_or_foreign ext self ca r (String d l') 0 10 y Hc Hu)
        as [[blits Eb]|Eb]; rewrite Eb; [|reflexivity].
      cbn [bind]. rewrite IH; [reflexivity | eauto].
Qed.

(** X11. In no-color mode the drawing of a text that holds a character
    which is neither a newline nor a glyph of the active set ends with
    [ValueError], raised by the lookup of its position. *)
Theorem foreign_glyph_raises (ext : bool) (self : session) (ascii_text : string)
    (color_array : option image) (c : ascii) :
  chars self = select_chars ext ->
  use_color self = false ->
  In c (glyphs ascii_text) ->
  c <> newline ->
  ~ In c (glyphs (chars self)) ->
  draw_ascii_frame self ascii_text color_array = Raise ValueError.
Proof.
  intros Hc Hu Hin Hnl Hout. unfold draw_ascii_frame.
  apply (draw_lines_foreign ext); auto.
  assert (Hf : In c (List.concat (map glyphs (split newline ascii_text)))).
  { rewrite split_glyphs. apply filter_In. split; [exact Hin|].
    unfold not_newline. destruct (Ascii.eqb c newline) eqn:E; [|reflexivity].
    apply Ascii.eqb_eq in E. contradiction. }
  apply in_concat in Hf. destruct Hf as (g & Hg & Hcg).
  apply in_map_iff in Hg. destruct Hg as (line & <- & Hline).
  exists line, c. auto.
Qed.

Lemma foreign_glyph_raises_witness :
  draw_ascii_frame (Reference.test_session false) " .?@" None = Raise ValueError.
Proof.
  apply (foreign_glyph_raises false (Reference.test_session false) " .?@" None "?"%char).
  - reflexivity.
  - reflexivity.
  - simpl. auto.
  - discriminate.
  - intros H. vm_compute in H. intuition discriminate.
Defined.

(** ** The command line *)

Section CommandLine.

Variable int_of_str : string -> result Z.

Lemma parse_args_word (arg : string) (rest : list string) (o : options) :
  is_value_option arg = false ->
  parse_args int_of_str (arg :: rest) o =
  parse_args int_of_str rest (apply_flag arg o).
Proof.
  unfold is_value_option. intros H. apply orb_false_iff in H. destruct H as [Hw Hh].
  cbn [parse_args]. rewrite Hw, Hh. destruct rest; reflexivity.
Qed.

(** Words before the first value option are processed one by one. *)
Lemma parse_args_words (words rest : list string) (o : options) :
  existsb is_value_option words = false ->
  parse_args int_of_str (words ++ rest) o =
  parse_args int_of_str rest (flags_of words o).
Proof.
  revert o. induction words as [|arg words IH]; intros o H; [reflexivity|].
  cbn [existsb] in H. apply orb_false_iff in H. destruct H as [Ha Hw].
  cbn [app]. rewrite parse_args_word by exact Ha.
  rewrite IH by exact Hw. reflexivity.
Qed.

Lemma flags_of_fields (args : list string) (o : options) :
  flags_of args o =
    {| opt_width := opt_width o;
       opt_height := opt_height o;
       opt_color := opt_color o && negb (mentions "--no-color" args);
       opt_extended := opt_extended o || mentions "--extended" args;
       opt_preview := opt_preview o && negb (mentions "--no-preview" args) |}.
Proof.
  unfold flags_of, mentions. revert o.
  induction args as [|arg args IH]; intros o.
  - cbn. rewrite !andb_true_r, orb_false_r. now destruct o.
  - cbn [fold_left existsb]. rewrite IH. unfold apply_flag.
    rewrite (String.eqb_sym "--no-color" arg), (String.eqb_sym "--extended" arg),
      (String.eqb_sym "--no-preview" arg).
    destruct (String.eqb arg "--no-color") eqn:E1.
    { apply String.eqb_eq in E1. subst arg. cbn.
      now rewrite andb_false_r. }
    destruct (String.eqb arg "--extended") eqn:E2.
    { apply String.eqb_eq in E2. subst arg. cbn.
      now rewrite orb_true_r. }
    destruct (String.eqb arg "--no-preview") eqn:E3.
    { cbn. now rewrite andb_false_r. }
    reflexivity.
Qed.

(** X12. On a command line without [--width] and [--height] the options
    are read without an error and depend only on which flags occur, not on
    their order, their number or the other words: width and height keep
    their defaults, color is on unless [--no-color] occurs, the extended set
    is chosen when [--extended] occurs, the preview is on unless
    [--no-preview] occurs. *)
Theorem flags_are_order_free (args : list string) (o : options) :
  existsb is_value_option args = false ->
  parse_args int_of_str args o =
    Ok {| opt_width := opt_width o;
          opt_height := opt_height o;
          opt_color := opt_color o && negb (mentions "--no-color" args);
          opt_extended := opt_extended o || mentions "--extended" args;
          opt_preview := opt_preview o && negb (mentions "--no-preview" args) |}.
Proof.
  intros H. rewrite <- (app_nil_r args) at 1.
  rewrite parse_args_words by exact H.
  cbn [parse_args]. now rewrite flags_of_fields.
Qed.

(** X13. The first [--width] (or [--height]) of a command line takes the
    next word as its value: the value is read with [int], an error of [int]
    ends the parsing with that error, and otherwise the parsing goes on
    behind the value with the new width (height).  When it is the last word
    there is no value, and the option is dropped without an error. *)
Theorem value_options_take_next_word (words : list string) (value : string)
    (rest : list string) (o : options) :
  existsb is_value_option words = false ->
  parse_args int_of_str (words ++ "--width"%string :: value :: rest) o =
    (w <- int_of_str value ;;
     parse_args int_of_str rest (with_width w (flags_of words o))) /\
  parse_args int_of_str (words ++ "--height"%string :: value :: rest) o =
    (h <- int_of_str value ;;
     parse_args int_of_str rest (with_height h (flags_of words o))) /\
  parse_args int_of_str (words ++ ["--width"%string]) o = Ok (flags_of words o) /\
  parse_args int_of_str (words ++ ["--height"%string]) o = Ok (flags_of words o).
Proof.
  intros H. rewrite !parse_args_words by exact H.
  repeat split.
Qed.

End CommandLine.

Lemma flags_are_order_free_witness :
  parse_args (fun _ => Raise ValueError)
    ["--no-color"; "video.mp4"; "--extended"; "--no-color"]%string default_options =
  Ok {| opt_width := 120; opt_height := None; opt_color := false;
        opt_extended := true; opt_preview := true |}.
Proof.
  rewrite (flags_are_order_free (fun _ => Raise ValueError)
             ["--no-color"; "video.mp4"; "--extended"; "--no-color"]%string
             default_options); reflexivity.
Defined.

Lemma value_options_take_next_word_witness :
  parse_args (fun _ => Raise ValueError)
    (["--extended"%string] ++ ["--width"%string])%list default_options =
  Ok (flags_of ["--extended"%string] default_options).
Proof.
  destruct (value_options_take_next_word (fun _ => Raise ValueError)
              ["--extended"%string] "" [] default_options) as (_ & _ & H & _);
    [reflexivity | exact H].
Defined.



(** ** The size calculator *)

Lemma int_truediv_ok (a b : Z) : b <> 0 -> exists q, int_truediv a b = Ok q.
Proof.
  intros Hb. unfold int_truediv.
  destruct (b =? 0) eqn:E; [apply Z.eqb_eq in E; contradiction|].
  destruct (a =? 0); eexists; reflexivity.
Qed.

Lemma duration_ok (fps : float) (frame_count : Z) :
  exists d,
    (if float_ltb 0%float fps
     then float_truediv (float_of_Z frame_count) fps
     else Ok (float_of_Z 0)) = Ok d.
Proof.
  destruct (float_ltb 0%float fps) eqn:E; [|eexists; reflexivity].
  unfold float_truediv. rewrite (positive_not_zero fps E). eexists; reflexivity.
Qed.

(** X15. For a source the player accepts with a derived grid height, the
    calculator (given a file of non-zero size) reports the very grid the
    player uses: the same height, width times height characters per frame,
    one byte per character and frame without colors and exactly four times
    that with colors, and a rendering of 6 by 12 pixels per character. *)
Theorem calculator_matches_player (c : capture) (fnt : font_metrics)
    (width original_size : Z) (color extended preview : bool) (s : session) :
  init c fnt width None color extended preview = Ok s ->
  original_size <> 0 ->
  exists r,
    calculate_ascii_video_size c original_size width = Ok (Some r) /\
    report_ascii_height r = ascii_height s /\
    chars_per_frame r = ascii_width s * ascii_height s /\
    txt_size_gray r = ascii_width s * ascii_height s * frame_count s /\
    txt_size_color r = 4 * txt_size_gray r /\
    render_width r = 6 * ascii_width s /\
    render_height r = 12 * ascii_height s.
Proof.
  intros Hinit Hsize. unfold init in Hinit.
  destruct (opened c) eqn:Ho; cbn [negb] in Hinit; [|discriminate].
  destruct (derived_height width (cap_width c) (cap_height c)) as [h|] eqn:Eh;
    cbn [bind] in Hinit; [|discriminate].
  destruct (derived_preview_height 240 (cap_width c) (cap_height c)) as [ph|];
    cbn [bind] in Hinit; [|discriminate].
  destruct (display_set_mode _) as [[]|]; cbn [bind] in Hinit; [|discriminate].
  injection Hinit as <-. cbn [ascii_height ascii_width frame_count].
  unfold calculate_ascii_video_size. rewrite Ho. cbn [negb].
  destruct (duration_ok (cap_fps c) (cap_frame_count c)) as (d & Ed).
  rewrite Ed, Eh. cbn [bind].
  destruct (int_truediv_ok (width * h * 1 * cap_frame_count c) 10 ltac:(lia))
    as (q1 & E1).
  destruct (int_truediv_ok (width * h * (1 + 3) * cap_frame_count c) 8 ltac:(lia))
    as (q2 & E2).
  destruct (int_truediv_ok (width * h * 1 * cap_frame_count c) original_size Hsize)
    as (q3 & E3).
  rewrite E1, E2. cbn [bind]. unfold float_truediv at 1.
  replace (float_is_zero (float_of_Z 8)) with false by (vm_compute; reflexivity).
  cbn [bind]. rewrite E3. cbn [bind].
  eexists. split; [reflexivity|].
  cbn [report_ascii_height chars_per_frame txt_size_gray txt_size_color
       render_width render_height].
  repeat split; ring.
Qed.

Lemma calculator_matches_player_witness :
  exists r,
    calculate_ascii_video_size Reference.vga_capture 1000000 120 = Ok (Some r) /\
    report_ascii_height r = 45 /\
    chars_per_frame r = 120 * 45.
Proof.
  destruct (calculator_matches_player Reference.vga_capture Reference.test_font
              120 1000000 true false true
              {| ascii_width := 120; ascii_height := 45; use_color := true;
                 chars := ASCII_CHARS; show_preview := true; fps := 30%float;
                 frame_count := 0; original_width := 640; original_height := 480;
                 font := Reference.test_font;
                 ascii_screen_width := 720; ascii_screen_height := 540;
                 preview_width := 240; preview_height := 180;
                 screen_width := 740; screen_height := 560 |})
    as (r & E & Hh & Hc & _); [vm_compute; reflexivity | lia |].
  exists r. auto.
Defined.

(** X16. The calculator returns without a report when the file does not
    open, and raises [ZeroDivisionError] for an opened source of width 0 or
    of height 0: unlike the player's [main], it catches nothing. *)
Theorem calculator_failures (c : capture) (original_size ascii_width : Z) :
  (opened c = false ->
     calculate_ascii_video_size c original_size ascii_width = Ok None) /\
  (opened c = true -> cap_width c = 0 \/ cap_height c = 0 ->
     calculate_ascii_video_size c original_size ascii_width = Raise ZeroDivisionError).
Proof.
  split.
  - intros Ho. unfold calculate_ascii_video_size. now rewrite Ho.
  - intros Ho Hz. unfold calculate_ascii_video_size. rewrite Ho. cbn [negb].
    destruct (duration_ok (cap_fps c) (cap_frame_count c)) as (d & Ed).
    rewrite Ed. cbn [bind].
    destruct (Z.eq_dec (cap_width c) 0) as [Hw|Hw].
    + rewrite Hw, derived_height_zero_width. reflexivity.
    + destruct Hz as [Hz|Hz]; [contradiction|].
      rewrite Hz. unfold derived_height, int_truediv. reflexivity.
Qed.

Lemma calculator_failures_witness :
  calculate_ascii_video_size Reference.unopened_capture 0 120 = Ok None /\
  calculate_ascii_video_size Reference.zero_height_capture 1000 120
    = Raise ZeroDivisionError.
Proof.
  split.
  - destruct (calculator_failures Reference.unopened_capture 0 120) as (H & _).
    apply H. reflexivity.
  - destruct (calculator_failures Reference.zero_height_capture 1000 120) as (_ & H).
    apply H; [reflexivity | right; reflexivity].
Defined.

(** ** The demo video *)

Lemma seq_from (s n : nat) : seq s n = map (fun j => (s + j)%nat) (seq 0 n).
Proof.
  induction s as [|s IH].
  - cbn [Nat.add]. now rewrite map_id.
  - rewrite <- seq_shift, IH, map_map. reflexivity.
Qed.

Lemma py_range_app (a b : Z) :
  0 <= a -> 0 <= b ->
  py_range (a + b) = py_range a ++ map (fun j => a + j) (py_range b).
Proof.
  intros Ha Hb. unfold py_range.
  rewrite Z2Nat.inj_add by lia. rewrite seq_app, map_app. f_equal.
  cbn [Nat.add]. rewrite seq_from, !map_map.
  apply map_ext. intros j. lia.
Qed.

Lemma filter_none {A : Type} (p : A -> bool) (l : list A) :
  (forall x, In x l -> p x = false) -> filter p l = [].
Proof.
  induction l as [|a l IH]; intros H; [reflexivity|].
  simpl. rewrite (H a (or_introl eq_refl)). apply IH.
  intros x Hx. apply H. now right.
Qed.

Lemma in_py_range (n x : Z) : In x (py_range n) -> 0 <= x < n.
Proof.
  unfold py_range. intros H. apply in_map_iff in H.
  destruct H as (k & <- & Hk). apply in_seq in Hk. lia.
Qed.

(** Among the frames of one second only the last one is reported. *)
Lemma one_second_reports (d fps : Z) :
  0 <= d -> 0 < fps ->
  map (fun frame_num => (frame_num + 1) / fps)
      (filter (fun frame_num => (frame_num + 1) mod fps =? 0)
              (map (fun j => d * fps + j) (py_range fps))) = [d + 1].
Proof.
  intros Hd Hf.
  assert (Hr : py_range fps =
               py_range (fps - 1) ++ map (fun j => fps - 1 + j) (py_range 1))
    by (rewrite <- py_range_app by lia; f_equal; lia).
  rewrite Hr. rewrite map_app, filter_app.
  rewrite filter_none.
  - change (py_range 1) with [0]. cbn [map filter].
    replace (d * fps + (fps - 1 + 0) + 1) with ((d + 1) * fps) by ring.
    rewrite Z.mod_mul by lia. cbn [Z.eqb map app].
    replace (d * fps + (fps - 1 + 0) + 1) with ((d + 1) * fps) by ring.
    now rewrite Z.div_mul by lia.
  - intros x Hx. apply in_map_iff in Hx. destruct Hx as (j & <- & Hj).
    apply in_py_range in Hj. apply Z.eqb_neq.
    replace (d * fps + j + 1) with ((j + 1) + d * fps) by ring.
    rewrite Z.mod_add by lia. rewrite Z.mod_small by lia. lia.
Qed.

Lemma progress_reports_seconds (d : nat) (fps : Z) :
  0 < fps ->
  progress_reports (Z.of_nat d) fps = map Z.of_nat (seq 1 d).
Proof.
  intros Hf. unfold progress_reports. induction d as [|d IH]; [reflexivity|].
  replace (Z.of_nat (S d) * fps) with (Z.of_nat d * fps + fps) by lia.
  rewrite py_range_app by nia. rewrite filter_app, map_app, IH.
  rewrite one_second_reports by lia.
  rewrite seq_S, map_app. cbn [map Nat.add]. f_equal. f_equal. lia.
Qed.

(** X17. While a demo video of [duration] seconds at [fps > 0] frames per
    second is written, [duration * fps] frames, every completed second is
    reported exactly once and in order: the reports are 1, 2, ...,
    [duration].  When there is nothing to write ([duration * fps <= 0], as
    with [fps = 0]) nothing is reported and nothing is divided by zero. *)
Theorem progress_every_second (duration fps : Z) :
  (0 <= duration -> 0 < fps ->
     progress_reports duration fps = map Z.of_nat (seq 1 (Z.to_nat duration))) /\
  (duration * fps <= 0 -> progress_reports duration fps = []).
Proof.
  split.
  - intros Hd Hf. rewrite <- (Z2Nat.id duration Hd) at 1.
    now apply progress_reports_seconds.
  - intros H. unfold progress_reports, py_range.
    replace (Z.to_nat (duration * fps)) with O by lia. reflexivity.
Qed.

Lemma progress_every_second_witness :
  progress_reports 5 30 = [1; 2; 3; 4; 5] /\ progress_reports 5 0 = [].
Proof.
  destruct (progress_every_second 5 30) as (H & _).
  destruct (progress_every_second 5 0) as (_ & H0).
  split; [apply H; lia | apply H0; lia].
Defined.

(** X18. The background of the demo frames (480 rows) is a vertical
    gradient that fits the 8-bit channels: row [y] gets red
    [floor(255 * y / 480)], which is 0 on the top row, never decreases
    downward and stays below 255, green half of it and blue a third of it
    (rounded down), so that blue <= green <= red on every row. *)
Theorem gradient_rows_fit_bytes (y : Z) :
  0 <= y < 480 ->
  exists b g r,
    gradient_row 480 y = Ok (b, g, r) /\
    r = 255 * y / 480 /\ g = r / 2 /\ b = r / 3 /\
    0 <= b <= g /\ g <= r <= 254 /\
    (forall y' r' g' b', y <= y' < 480 ->
       gradient_row 480 y' = Ok (b', g', r') -> r <= r').
Proof.
  intros Hy.
  assert (Hall : forall z, 0 <= z < 480 -> gradient_ok z = true).
  { intros z Hz. apply (below_spec 480 gradient_ok); [vm_compute; reflexivity | lia]. }
  pose proof (Hall y Hy) as H. unfold gradient_ok in H.
  destruct (gradient_row 480 y) as [[[b g] r]|] eqn:E; [|discriminate].
  apply andb_true_iff in H. destruct H as [H Hb].
  apply andb_true_iff in H. destruct H as [Hr Hg].
  apply Z.eqb_eq in Hr, Hg, Hb.
  exists b, g, r. split; [reflexivity|].
  assert (Hr0 : 0 <= r) by (rewrite Hr; apply Z.div_pos; lia).
  assert (Hr1 : r <= 254).
  { rewrite Hr. apply Z.lt_succ_r. apply Z.div_lt_upper_bound; lia. }
  assert (Hg0 : 0 <= g) by (rewrite Hg; apply Z.div_pos; lia).
  assert (Hg1 : g <= r) by (rewrite Hg; apply Z.div_le_upper_bound; lia).
  assert (Hb0 : 0 <= b) by (rewrite Hb; apply Z.div_pos; lia).
  assert (Hb1 : b <= g).
  { rewrite Hb, Hg.
    apply Z.div_le_lower_bound; [lia|].
    pose proof (Z.mul_div_le r 3 ltac:(lia)).
    pose proof (Z.mul_succ_div_gt r 3 ltac:(lia)).
    pose proof (Z.mul_div_le r 2 ltac:(lia)).
    pose proof (Z.mul_succ_div_gt r 2 ltac:(lia)).
    nia. }
  repeat split; auto.
  intros y' r' g' b' Hy' E'.
  pose proof (Hall y' ltac:(lia)) as H'. unfold gradient_ok in H'.
  rewrite E' in H'.
  apply andb_true_iff in H'. destruct H' as [H' _].
  apply andb_true_iff in H'. destruct H' as [Hr' _].
  apply Z.eqb_eq in Hr'. rewrite Hr, Hr'.
  apply Z.div_le_mono; lia.
Qed.

Lemma gradient_rows_fit_bytes_witness :
  exists b g r,
    gradient_row 480 479 = Ok (b, g, r) /\ r = 255 * 479 / 480 /\ g <= r <= 254.
Proof.
  destruct (gradient_rows_fit_bytes 479) as (b & g & r & E & Hr & _ & _ & _ & Hg & _);
    [lia|].
  exists b, g, r. auto.
Defined.
